(** * Time-on-Task: the task-time confidence-interval calculator

    A shallow embedding of [src/task-time-calculator.tsx]: the line parser
    [parseTimeData] with [formatTime], the critical-value lookup
    [getTCritical], the estimator [calculateCI], the two event handlers with
    the component state, and the conditions of the rendered panels.

    Numbers.  A JavaScript Number is modelled by [number]: the IEEE special
    values NaN, +Infinity and -Infinity are kept, with the propagation rules
    of IEEE-754 arithmetic and of the ECMAScript [Math] functions; a finite
    Number carries an exact real.  Rounding of finite results to 53 bits and
    overflow of finite arithmetic are not modelled, and the two zeros are
    identified (a zero divisor counts as +0).  [parseFloat] does keep the
    two ends of the binary64 range: a literal too large becomes Infinity, a
    literal too small becomes zero.  The accuracy of [Math.log], [Math.exp]
    and [Math.pow] is implementation-defined in ECMAScript except at the
    special values; on finite arguments they are taken to be the exact
    functions.  What is stated below of finite values is therefore stated
    where exact and binary64 arithmetic agree: orderings that rounding
    keeps, whole numbers below [2^53], and results that are not NaN.
    Nothing is stated of the comparison of two results that differ by
    rounding only.

    Strings.  A JavaScript string is a list of code units; only code units
    below 256 are represented.

    Calls.  A call returns a value or throws ([completion]); [null] is
    [None].

    Objects.  Where a statement is about which objects a call touches,
    [calculateCI] is rendered a second time over a store of objects passed
    by reference ([Store]), for any representation of Numbers. *)

From Stdlib Require Import Ascii String Reals Lra Lia ZArith List Bool Sorted.
Import ListNotations.

Set Implicit Arguments.

(** ** JavaScript Numbers *)

Inductive number : Type :=
| NaN
| Inf (neg : bool)
| Fin (x : R).

Declare Scope num_scope.
Delimit Scope num_scope with num.
Bind Scope num_scope with number.

Definition Rltb (x y : R) : bool := if Rlt_dec x y then true else false.
Definition Reqb (x y : R) : bool := if Req_dec_T x y then true else false.

Definition isNaN (v : number) : bool :=
  match v with NaN => true | _ => false end.

Definition isFinite (v : number) : bool :=
  match v with Fin _ => true | _ => false end.

(** The four arithmetic operators.  With a special value they follow
    IEEE-754; of two finite Numbers they give the exact real result: the
    rounding to a binary64 value and the overflow to an infinity are not
    modelled. *)
Definition num_add (a b : number) : number :=
  match a, b with
  | NaN, _ | _, NaN => NaN
  | Inf s, Inf s' => if Bool.eqb s s' then Inf s else NaN
  | Inf s, Fin _ => Inf s
  | Fin _, Inf s => Inf s
  | Fin x, Fin y => Fin (x + y)
  end.

Definition num_sub (a b : number) : number :=
  match a, b with
  | NaN, _ | _, NaN => NaN
  | Inf s, Inf s' => if Bool.eqb s s' then NaN else Inf s
  | Inf s, Fin _ => Inf s
  | Fin _, Inf s => Inf (negb s)
  | Fin x, Fin y => Fin (x - y)
  end.

Definition num_mul (a b : number) : number :=
  match a, b with
  | NaN, _ | _, NaN => NaN
  | Inf s, Inf s' => Inf (xorb s s')
  | Inf s, Fin y => if Reqb y 0 then NaN else Inf (xorb s (Rltb y 0))
  | Fin x, Inf s => if Reqb x 0 then NaN else Inf (xorb (Rltb x 0) s)
  | Fin x, Fin y => Fin (x * y)
  end.

Definition num_div (a b : number) : number :=
  match a, b with
  | NaN, _ | _, NaN => NaN
  | Inf _, Inf _ => NaN
  | Inf s, Fin y => Inf (xorb s (Rltb y 0))
  | Fin _, Inf _ => Fin 0
  | Fin x, Fin y =>
      if Reqb y 0 then (if Reqb x 0 then NaN else Inf (Rltb x 0))
      else Fin (x / y)
  end.

(** [a < b], [a > b], [a <= b] and [a === b] on Numbers: every comparison
    with NaN is false. *)
Definition num_ltb (a b : number) : bool :=
  match a, b with
  | NaN, _ | _, NaN => false
  | Inf s, Inf s' => s && negb s'
  | Inf s, Fin _ => s
  | Fin _, Inf s => negb s
  | Fin x, Fin y => Rltb x y
  end.

Definition num_gtb (a b : number) : bool := num_ltb b a.

Definition num_eqb (a b : number) : bool :=
  match a, b with
  | NaN, _ | _, NaN => false
  | Inf s, Inf s' => Bool.eqb s s'
  | Fin x, Fin y => Reqb x y
  | _, _ => false
  end.

Definition num_leb (a b : number) : bool := num_ltb a b || num_eqb a b.

(** ToBoolean on a Number: NaN and zero are falsy. *)
Definition truthy (a : number) : bool :=
  match a with
  | NaN => false
  | Inf _ => true
  | Fin x => negb (Reqb x 0)
  end.

(** [a || b] where [a] may be [undefined] (a missing property). *)
Definition or_default (a : option number) (b : number) : number :=
  match a with
  | Some v => if truthy v then v else b
  | None => b
  end.

Definition Math_sqrt (a : number) : number :=
  match a with
  | NaN => NaN
  | Inf s => if s then NaN else Inf false
  | Fin x => if Rltb x 0 then NaN else Fin (sqrt x)
  end.

(** [Math.log] and [Math.exp]: the special cases of ECMAScript, and on the
    other arguments the exact function, where an engine returns a binary64
    approximation of it ([Math.exp] returns +Infinity from about 709.78
    on). *)
Definition Math_log (a : number) : number :=
  match a with
  | NaN => NaN
  | Inf s => if s then NaN else Inf false
  | Fin x => if Rltb x 0 then NaN else if Reqb x 0 then Inf true else Fin (ln x)
  end.

Definition Math_exp (a : number) : number :=
  match a with
  | NaN => NaN
  | Inf s => if s then Fin 0 else Inf false
  | Fin x => Fin (exp x)
  end.

(** [Math.pow(base, k)] for a literal natural exponent [k], the only form the
    program uses. *)
Definition Math_pow (base : number) (k : nat) : number :=
  match k with
  | O => Fin 1
  | _ =>
      match base with
      | NaN => NaN
      | Inf s => Inf (s && Nat.odd k)
      | Fin x => Fin (x ^ k)
      end
  end.

Definition of_nat (n : nat) : number := Fin (INR n).
Definition of_Z (z : Z) : number := Fin (IZR z).

Infix "+" := num_add : num_scope.
Infix "-" := num_sub : num_scope.
Infix "*" := num_mul : num_scope.
Infix "/" := num_div : num_scope.

(** ** Completion of a call: a value or a thrown error

    The errors of the program are the TypeError of a property read on
    [undefined] and the RangeError of a call with too many arguments; which
    of the two was thrown is not recorded. *)

Inductive completion (A : Type) : Type :=
| Normal (v : A)
| Throw.
Arguments Normal {A} v.
Arguments Throw {A}.

Definition bind {A B} (c : completion A) (k : A -> completion B) : completion B :=
  match c with
  | Normal v => k v
  | Throw => Throw
  end.

(** ** The critical-value table: [getTCritical] *)

Open Scope R_scope.

(** A row of [tValues]: the object literal with the numeric property names
    0.20, 0.10 and 0.05, in source order. *)
Definition row (a b c : R) : list (number * number) :=
  [ (Fin 0.20, Fin a); (Fin 0.10, Fin b); (Fin 0.05, Fin c) ].

Definition tValues : list (Z * list (number * number)) :=
  [ (1%Z,  row 3.078 6.314 12.706);
    (2%Z,  row 1.886 2.920 4.303);
    (3%Z,  row 1.638 2.353 3.182);
    (4%Z,  row 1.533 2.132 2.776);
    (5%Z,  row 1.476 2.015 2.571);
    (6%Z,  row 1.440 1.943 2.447);
    (7%Z,  row 1.415 1.895 2.365);
    (8%Z,  row 1.397 1.860 2.306);
    (9%Z,  row 1.383 1.833 2.262);
    (10%Z, row 1.372 1.812 2.228);
    (15%Z, row 1.341 1.753 2.131);
    (20%Z, row 1.325 1.725 2.086);
    (25%Z, row 1.316 1.708 2.060);
    (30%Z, row 1.310 1.697 2.042) ].

(** Property lookup [obj[key]]: [None] is [undefined]. *)
Fixpoint get_row (key : Z) (t : list (Z * list (number * number)))
  : option (list (number * number)) :=
  match t with
  | [] => None
  | (k, r) :: t' => if Z.eqb key k then Some r else get_row key t'
  end.

Fixpoint get_alpha (key : number) (r : list (number * number)) : option number :=
  match r with
  | [] => None
  | (k, v) :: r' => if num_eqb key k then Some v else get_alpha key r'
  end.

Definition df_key (df : Z) : Z :=
  if (df <=? 30)%Z then
    (if (df <=? 10)%Z then df
     else if (df <=? 15)%Z then 15
     else if (df <=? 20)%Z then 20
     else if (df <=? 25)%Z then 25
     else 30)%Z
  else 30%Z.

(** [(100 - confidenceLevel) / 100] *)
Definition alpha_of (confidenceLevel : number) : number :=
  ((Fin 100 - confidenceLevel) / Fin 100)%num.

(** [tValues[df_key]] is [undefined] when the key is not a row of the table,
    and reading a property of [undefined] throws. *)
Definition getTCritical (df : Z) (confidenceLevel : number) : completion number :=
  let alpha := alpha_of confidenceLevel in
  match get_row (df_key df) tValues with
  | None => Throw
  | Some r => Normal (or_default (get_alpha alpha r) (Fin 2.042))
  end.

(** ** JavaScript strings *)

Definition jsstring : Type := list ascii.

Definition js (s : string) : jsstring := list_ascii_of_string s.

(** ToBoolean on a string: only the empty string is falsy. *)
Definition nonempty (s : jsstring) : bool :=
  match s with [] => false | _ :: _ => true end.

(** WhiteSpace and LineTerminator code units: TAB, LF, VT, FF, CR, SP, NBSP. *)
Definition is_ws (c : ascii) : bool :=
  let k := nat_of_ascii c in
  ((k =? 9) || (k =? 10) || (k =? 11) || (k =? 12) || (k =? 13)
   || (k =? 32) || (k =? 160))%nat.

Fixpoint trim_start (s : jsstring) : jsstring :=
  match s with
  | [] => []
  | c :: s' => if is_ws c then trim_start s' else s
  end.

Definition trim_end (s : jsstring) : jsstring := rev (trim_start (rev s)).

(** [s.trim()] *)
Definition String_trim (s : jsstring) : jsstring := trim_end (trim_start s).

(** [s.split(sep)] for a separator of one code unit: the result always has
    at least one element. *)
Fixpoint String_split (sep : ascii) (s : jsstring) : list jsstring :=
  match s with
  | [] => [[]]
  | c :: s' =>
      if Ascii.eqb c sep then [] :: String_split sep s'
      else match String_split sep s' with
           | l :: ls => (c :: l) :: ls
           | [] => [[c]]
           end
  end.

Definition LF : ascii := ascii_of_nat 10.

(** ** [parseFloat] *)

Definition is_digit (c : ascii) : bool :=
  ((48 <=? nat_of_ascii c) && (nat_of_ascii c <=? 57))%nat.

Definition digit_val (c : ascii) : Z := (Z.of_nat (nat_of_ascii c) - 48)%Z.

Fixpoint take_digits (s : jsstring) : jsstring * jsstring :=
  match s with
  | [] => ([], [])
  | c :: s' =>
      if is_digit c then let (ds, r) := take_digits s' in (c :: ds, r)
      else ([], s)
  end.

Definition digits_value (ds : jsstring) : Z :=
  fold_left (fun acc c => (10 * acc + digit_val c)%Z) ds 0%Z.

Fixpoint strip_prefix (p s : jsstring) : option jsstring :=
  match p, s with
  | [], _ => Some s
  | a :: p', b :: s' => if Ascii.eqb a b then strip_prefix p' s' else None
  | _ :: _, [] => None
  end.

Definition parse_sign (s : jsstring) : bool * jsstring :=
  match s with
  | c :: r =>
      if Ascii.eqb c "+" then (false, r)
      else if Ascii.eqb c "-" then (true, r)
      else (false, s)
  | [] => (false, s)
  end.

(** ExponentPart, when a complete one follows; otherwise the literal ends
    before the exponent indicator and the exponent is 0. *)
Definition parse_exponent (s : jsstring) : Z :=
  match s with
  | c :: r =>
      if Ascii.eqb c "e" || Ascii.eqb c "E" then
        let (neg, r') := parse_sign r in
        match fst (take_digits r') with
        | [] => 0%Z
        | ds => if neg then (- digits_value ds)%Z else digits_value ds
        end
      else 0%Z
  | [] => 0%Z
  end.

(** The longest prefix that is a StrDecimalLiteral: [Infinity] or
    [mantissa * 10 ^ exp10], with a sign. *)
Inductive StrDecimalLiteral : Type :=
| SDInfinity (neg : bool)
| SDDecimal (neg : bool) (mantissa exp10 : Z).

Definition longest_prefix (s : jsstring) : option StrDecimalLiteral :=
  let (neg, r) := parse_sign s in
  match strip_prefix (js "Infinity") r with
  | Some _ => Some (SDInfinity neg)
  | None =>
      let (ip, r1) := take_digits r in
      let (fp, r2) :=
        match r1 with
        | c :: r1' => if Ascii.eqb c "." then take_digits r1' else ([], r1)
        | [] => ([], r1)
        end in
      match ip, fp with
      | [], [] => None
      | _, _ =>
          Some (SDDecimal neg (digits_value (ip ++ fp))
                  (parse_exponent r2 - Z.of_nat (length fp)))
      end
  end.

(** The mathematical value [m * 10 ^ e] against the binary64 range: at or
    above [2^1024 - 2^970] it rounds to Infinity, at or below [2^-1075] it
    rounds to zero. *)
Definition MV_overflows (m e : Z) : bool :=
  if (0 <=? e)%Z then (2 ^ 1024 - 2 ^ 970 <=? m * 10 ^ e)%Z
  else ((2 ^ 1024 - 2 ^ 970) * 10 ^ (- e) <=? m)%Z.

Definition MV_underflows (m e : Z) : bool :=
  if (0 <=? e)%Z then (m =? 0)%Z
  else (m * 2 ^ 1075 <=? 10 ^ (- e))%Z.

Definition decimal_value (m e : Z) : R :=
  if (0 <=? e)%Z then IZR (m * 10 ^ e) else IZR m / IZR (10 ^ (- e)).

(** The Number a literal denotes.  A value inside the binary64 range is kept
    as the exact decimal: the rounding to the nearest binary64 value is not
    modelled (a whole number up to [2^53] is its own binary64 value). *)
Definition StringNumericValue (l : StrDecimalLiteral) : number :=
  match l with
  | SDInfinity neg => Inf neg
  | SDDecimal neg m e =>
      if MV_underflows m e then Fin 0
      else if MV_overflows m e then Inf neg
      else Fin (if neg then - decimal_value m e else decimal_value m e)
  end.

Definition parseFloat (s : jsstring) : number :=
  match longest_prefix (trim_start s) with
  | None => NaN
  | Some l => StringNumericValue l
  end.

(** ** The parser: [parseTimeData] *)

Record TimeEntry : Type := {
  raw : number;
  formatted : jsstring;
  lineNumber : nat
}.

(** [Math.floor]; applied to an exact quotient it gives the floor of the
    quotient, where the program floors the quotient rounded to binary64. *)
Definition Math_floor (a : number) : number :=
  match a with
  | Fin x => Fin (IZR (Int_part x))
  | _ => a
  end.

(** [a % b] *)
Definition num_rem (a b : number) : number :=
  match a, b with
  | NaN, _ | _, NaN => NaN
  | Inf _, _ => NaN
  | Fin x, Inf _ => Fin x
  | Fin x, Fin y =>
      if Reqb y 0 then NaN
      else
        let q := if Rltb (x / y) 0 then (- Int_part (- (x / y)))%Z
                 else Int_part (x / y) in
        Fin (x - y * IZR q)
  end.

Fixpoint repeat_char (c : ascii) (k : nat) : jsstring :=
  match k with O => [] | S k' => c :: repeat_char c k' end.

(** [s.padStart(len, c)] for a one-unit filler. *)
Definition padStart (s : jsstring) (len : nat) (c : ascii) : jsstring :=
  repeat_char c (len - length s) ++ s.

(** [times.forEach((line, index) => ...)], the accumulator being the array
    [times] the callback pushes to. *)
Fixpoint forEach {A B : Type} (f : B -> A -> nat -> B) (l : list A)
    (index : nat) (acc : B) : B :=
  match l with
  | [] => acc
  | a :: l' => forEach f l' (S index) (f acc a index)
  end.

Section Parser.

(** [Number.prototype.toString], also used by template literals. *)
Variable Number_toString : number -> jsstring.

Definition formatTime (seconds : number) : jsstring :=
  let minutes := Math_floor (seconds / Fin 60)%num in
  let remainingSeconds := num_rem seconds (Fin 60) in
  Number_toString minutes ++ js ":"
    ++ padStart (Number_toString remainingSeconds) 2 "0".

Definition pushLine (times : list TimeEntry) (line : jsstring) (index : nat)
  : list TimeEntry :=
  let trimmed := String_trim line in
  if nonempty trimmed then
    let value := parseFloat trimmed in
    if negb (isNaN value) && num_gtb value (Fin 0) then
      times ++ [ {| raw := value;
                    formatted := formatTime value;
                    lineNumber := index + 1 |} ]
    else times
  else times.

(** The new value of the [parsedTimes] state. *)
Definition parseTimeData (input : jsstring) : list TimeEntry :=
  if negb (nonempty (String_trim input)) then []
  else forEach pushLine (String_split LF input) 0 [].

(** The entry pushed for the line at (0-based) [index]. *)
Definition entry_of (index : nat) (line : jsstring) : TimeEntry :=
  {| raw := parseFloat (String_trim line);
     formatted := formatTime (parseFloat (String_trim line));
     lineNumber := index + 1 |}.

(** The line at 1-based position [k] of the input has an entry in the
    parsed sample. *)
Definition included (input : jsstring) (k : nat) : Prop :=
  exists o, In o (parseTimeData input) /\ lineNumber o = k.

End Parser.

(** The test that guards the push. *)
Definition valid (line : jsstring) : bool :=
  nonempty (String_trim line)
  && (negb (isNaN (parseFloat (String_trim line)))
      && num_gtb (parseFloat (String_trim line)) (Fin 0)).

(** The lines of an input with their 0-based indices. *)
Definition indexed_from (i : nat) (lines : list jsstring) : list (nat * jsstring) :=
  combine (seq i (length lines)) lines.

(** The input [122], [0], [-5], [abc], [50.5], each followed by a line feed. *)
Definition example_input : jsstring :=
  js "122" ++ [LF] ++ js "0" ++ [LF] ++ js "-5" ++ [LF] ++ js "abc" ++ [LF]
    ++ js "50.5" ++ [LF].

Definition infinity_input : jsstring :=
  js "Infinity" ++ [LF] ++ js "Infinity".

(** ** The estimator: [calculateCI] *)

Module Result.
Record t : Type := {
  n : nat;
  geometricMean : number;
  arithmeticMean : number;
  logMean : number;
  logSD : number;
  sem : number;
  df : Z;
  tCritical : number;
  margin : number;
  ciLow : number;
  ciHigh : number;
  confidenceLevel : number
}.
End Result.

(** [null] is [None]. *)
Definition calculateCI (parsedTimes : list TimeEntry) (confidenceLevel : number)
  : completion (option Result.t) :=
  if (length parsedTimes <? 2)%nat then Normal None
  else
    let times := map raw parsedTimes in
    let n := length times in
    let logTimes := map Math_log times in
    let logMean :=
      (fold_left (fun sum val => sum + val) logTimes (Fin 0) / of_nat n)%num in
    let logVariance :=
      (fold_left (fun sum val => sum + Math_pow (val - logMean) 2) logTimes (Fin 0)
       / of_Z (Z.of_nat n - 1))%num in
    let logSD := Math_sqrt logVariance in
    let sem := (logSD / Math_sqrt (of_nat n))%num in
    let df := (Z.of_nat n - 1)%Z in
    bind (getTCritical df confidenceLevel) (fun tCritical =>
    let margin := (tCritical * sem)%num in
    let logLow := (logMean - margin)%num in
    let logHigh := (logMean + margin)%num in
    let geometricMean := Math_exp logMean in
    let ciLow := Math_exp logLow in
    let ciHigh := Math_exp logHigh in
    let arithmeticMean :=
      (fold_left (fun sum val => sum + val) times (Fin 0) / of_nat n)%num in
    Normal (Some {|
      Result.n := n;
      Result.geometricMean := geometricMean;
      Result.arithmeticMean := arithmeticMean;
      Result.logMean := logMean;
      Result.logSD := logSD;
      Result.sem := sem;
      Result.df := df;
      Result.tCritical := tCritical;
      Result.margin := margin;
      Result.ciLow := ciLow;
      Result.ciHigh := ciHigh;
      Result.confidenceLevel := confidenceLevel
    |})).

(** ** Relations used to state properties of results *)

(** JavaScript [a <= b] holds; false as soon as one side is NaN. *)
Definition num_le (a b : number) : Prop := num_leb a b = true.

Definition width (r : Result.t) : number :=
  (Result.ciHigh r - Result.ciLow r)%num.

(** The values of a sample are finite and strictly positive: the reals [xs]. *)
Definition finite_positive (sample : list TimeEntry) (xs : list R) : Prop :=
  map raw sample = map Fin xs /\ Forall (fun x => 0 < x) xs.

(** The 42 entries of [tValues]. *)
Definition table_entries : list number :=
  flat_map (fun kr => map snd (snd kr)) tValues.

(** Sums and means over the reals. *)
Definition Rsum (l : list R) : R := fold_right Rplus 0 l.
Definition Rmean (l : list R) : R := Rsum l / INR (length l).

(** The sample of the end-to-end example: 122, 293, 203, 156, 89. *)
Definition example_sample : list TimeEntry :=
  [ {| raw := Fin 122; formatted := js "2:02"; lineNumber := 1 |};
    {| raw := Fin 293; formatted := js "4:53"; lineNumber := 2 |};
    {| raw := Fin 203; formatted := js "3:23"; lineNumber := 3 |};
    {| raw := Fin 156; formatted := js "2:36"; lineNumber := 4 |};
    {| raw := Fin 89; formatted := js "1:29"; lineNumber := 5 |} ].

Definition example_values : list R := [122; 293; 203; 156; 89].

(** A sample the parser can hand to the estimator: the lines [Infinity],
    [Infinity]. *)
Definition infinite_sample : list TimeEntry :=
  [ {| raw := Inf false; formatted := js "Infinity:NaN"; lineNumber := 1 |};
    {| raw := Inf false; formatted := js "Infinity:NaN"; lineNumber := 2 |} ].

(** The log-space statistics of a sample of reals. *)
Definition Rlogmean (xs : list R) : R := Rmean (map ln xs).

Definition Rlogvar (xs : list R) : R :=
  Rsum (map (fun l => (l - Rlogmean xs) ^ 2) (map ln xs))
  / (INR (length xs) - 1).

Definition Rsem (xs : list R) : R :=
  sqrt (Rlogvar xs) / sqrt (INR (length xs)).

(** ** The estimator as the specification words it *)

Module Spec.

Definition sum (l : list number) : number := fold_right num_add (Fin 0) l.

Definition mean (l : list number) : number := (sum l / of_nat (length l))%num.

Definition square (x : number) : number := (x * x)%num.

Definition alpha (confidenceLevel : number) : number :=
  ((Fin 100 - confidenceLevel) / Fin 100)%num.

(** The degrees-of-freedom bands. *)
Definition bucket (df : Z) : Z :=
  (if df <=? 10 then df
   else if df <=? 15 then 15
   else if df <=? 20 then 20
   else if df <=? 25 then 25
   else 30)%Z.

(** The table entry for the band and alpha, or the fallback 2.042. *)
Definition tCritical (df : Z) (confidenceLevel : number) : number :=
  match get_row (bucket df) tValues with
  | Some r =>
      match get_alpha (alpha confidenceLevel) r with
      | Some v => v
      | None => Fin 2.042
      end
  | None => Fin 2.042
  end.

Definition logTimes (sample : list TimeEntry) : list number :=
  map (fun o => Math_log (raw o)) sample.

Definition logMean (sample : list TimeEntry) : number :=
  mean (logTimes sample).

(** Bessel-corrected sample variance of the log-transformed values. *)
Definition logVariance (sample : list TimeEntry) : number :=
  (sum (map (fun l => square (l - logMean sample)) (logTimes sample))
   / (of_nat (length sample) - Fin 1))%num.

Definition logSD (sample : list TimeEntry) : number :=
  Math_sqrt (logVariance sample).

Definition standardErrorOfLogMean (sample : list TimeEntry) : number :=
  (logSD sample / Math_sqrt (of_nat (length sample)))%num.

Definition degreesOfFreedom (sample : list TimeEntry) : Z :=
  (Z.of_nat (length sample) - 1)%Z.

Definition marginInLogSpace (sample : list TimeEntry) (confidenceLevel : number)
  : number :=
  (tCritical (degreesOfFreedom sample) confidenceLevel
   * standardErrorOfLogMean sample)%num.

Definition arithmeticMean (sample : list TimeEntry) : number :=
  mean (map raw sample).

Definition estimate (sample : list TimeEntry) (confidenceLevel : number)
  : option Result.t :=
  if (length sample <? 2)%nat then None
  else
    Some {|
      Result.n := length sample;
      Result.geometricMean := Math_exp (logMean sample);
      Result.arithmeticMean := arithmeticMean sample;
      Result.logMean := logMean sample;
      Result.logSD := logSD sample;
      Result.sem := standardErrorOfLogMean sample;
      Result.df := degreesOfFreedom sample;
      Result.tCritical := tCritical (degreesOfFreedom sample) confidenceLevel;
      Result.margin := marginInLogSpace sample confidenceLevel;
      Result.ciLow :=
        Math_exp (logMean sample - marginInLogSpace sample confidenceLevel)%num;
      Result.ciHigh :=
        Math_exp (logMean sample + marginInLogSpace sample confidenceLevel)%num;
      Result.confidenceLevel := confidenceLevel
    |}.

End Spec.

(** ** The estimator over a store of objects

    Arrays and records are objects in a store and are passed by reference:
    [parsedTimes] is an array of references to entries.  This rendering of
    [getTCritical] and [calculateCI] keeps what the pure one abstracts away:
    which objects a call reads, which it allocates and which it writes.
    [map] allocates its result and fills it index by index, reading the
    source array at each step; [reduce] and [length] only read; an object
    literal allocates.  The kinds of objects are those the program builds;
    a read that finds an object of another kind than the program text
    expects, which does not happen in a store that holds a sample, throws.

    The operations on Numbers are a parameter ([Ops]): the rendering is the
    same program for every representation of Numbers, the 64-bit patterns of
    binary64 as well as [number]. *)

Module Store.

(** The operations on Numbers that the two functions call: numeric
    literals, the four arithmetic operators, the [Math] functions,
    ToBoolean, and whether two Numbers name the same property. *)
Record Ops (num : Type) : Type := {
  literal : R -> num;
  add : num -> num -> num;
  sub : num -> num -> num;
  mul : num -> num -> num;
  div : num -> num -> num;
  math_log : num -> num;
  math_exp : num -> num;
  math_sqrt : num -> num;
  math_pow : num -> nat -> num;
  to_boolean : num -> bool;
  same_key : num -> num -> bool
}.

(** The object [calculateCI] returns. *)
Record result (num : Type) : Type := {
  n : nat;
  geometricMean : num;
  arithmeticMean : num;
  logMean : num;
  logSD : num;
  sem : num;
  df : Z;
  tCritical : num;
  margin : num;
  ciLow : num;
  ciHigh : num;
  confidenceLevel : num
}.

Definition ref : Type := nat.

Inductive object (num : Type) : Type :=
| EntryArray (elements : list ref)
| Entry (raw : num) (formatted : jsstring) (lineNumber : nat)
| NumberArray (elements : list num)
| Row (cells : list (num * num))
| Table (rows : list (Z * ref))
| ResultObject (fields : result num).

Arguments EntryArray {num} elements.
Arguments Table {num} rows.

(** The literals of [tValues]: a key and the values for 0.20, 0.10, 0.05. *)
Definition tLiterals : list (Z * (R * R * R)) :=
  [ (1%Z,  (3.078, 6.314, 12.706));
    (2%Z,  (1.886, 2.920, 4.303));
    (3%Z,  (1.638, 2.353, 3.182));
    (4%Z,  (1.533, 2.132, 2.776));
    (5%Z,  (1.476, 2.015, 2.571));
    (6%Z,  (1.440, 1.943, 2.447));
    (7%Z,  (1.415, 1.895, 2.365));
    (8%Z,  (1.397, 1.860, 2.306));
    (9%Z,  (1.383, 1.833, 2.262));
    (10%Z, (1.372, 1.812, 2.228));
    (15%Z, (1.341, 1.753, 2.131));
    (20%Z, (1.325, 1.725, 2.086));
    (25%Z, (1.316, 1.708, 2.060));
    (30%Z, (1.310, 1.697, 2.042)) ].

Section Program.

Variable num : Type.
Variable ops : Ops num.

Definition heap : Type := list (object num).

(** A computation on the store: it returns a value and the store it
    leaves, or throws. *)
Definition M (A : Type) : Type := heap -> completion (A * heap).

Definition ret {A} (a : A) : M A := fun h => Normal (a, h).

Definition throw {A} : M A := fun _ => Throw.

Definition bindM {A B} (m : M A) (k : A -> M B) : M B :=
  fun h =>
    match m h with
    | Normal (a, h') => k a h'
    | Throw => Throw
    end.

Notation "x <- m ;; k" := (bindM m (fun x => k))
  (at level 61, m at next level, right associativity).

(** *** The three accesses to the store *)

Definition alloc (o : object num) : M ref :=
  fun h => Normal (length h, h ++ [o]).

Definition read (r : ref) : M (object num) :=
  fun h =>
    match nth_error h r with
    | Some o => Normal (o, h)
    | None => Throw
    end.

Fixpoint replace (r : ref) (o : object num) (h : heap) : heap :=
  match h, r with
  | [], _ => []
  | _ :: h', O => o :: h'
  | x :: h', S r' => x :: replace r' o h'
  end.

Definition write (r : ref) (o : object num) : M unit :=
  fun h => if (r <? length h)%nat then Normal (tt, replace r o h) else Throw.

(** *** Arrays *)

(** [parsedTimes.length] *)
Definition entries_length (a : ref) : M nat :=
  o <- read a ;;
  match o with EntryArray elements => ret (length elements) | _ => throw end.

(** [parsedTimes[k]]; [None] is [undefined]. *)
Definition entries_get (a : ref) (k : nat) : M (option ref) :=
  o <- read a ;;
  match o with EntryArray elements => ret (nth_error elements k) | _ => throw end.

(** [times.length] *)
Definition numbers_length (a : ref) : M nat :=
  o <- read a ;;
  match o with NumberArray elements => ret (length elements) | _ => throw end.

(** [times[k]] *)
Definition numbers_get (a : ref) (k : nat) : M (option num) :=
  o <- read a ;;
  match o with NumberArray elements => ret (nth_error elements k) | _ => throw end.

(** [a.push(v)]: the array [a] itself is changed. *)
Definition numbers_push (a : ref) (v : num) : M unit :=
  o <- read a ;;
  match o with
  | NumberArray elements => write a (NumberArray (elements ++ [v]))
  | _ => throw
  end.

(** The loop of [map] and [reduce] over the indices of an array, with the
    value carried from one step to the next. *)
Fixpoint iterate {B} (body : B -> nat -> M B) (indices : list nat) (acc : B)
  : M B :=
  match indices with
  | [] => ret acc
  | k :: indices' => acc' <- body acc k ;; iterate body indices' acc'
  end.

(** [parsedTimes.map(f)]: the length is read once, the result array is
    allocated, then each index that is present is read, [f] is called on
    the element and its result is stored in the result array, in index
    order. *)
Definition entries_map (f : ref -> M num) (a : ref) : M ref :=
  len <- entries_length a ;;
  out <- alloc (NumberArray []) ;;
  _ <- iterate (fun _ k =>
                  e <- entries_get a k ;;
                  match e with
                  | Some t => v <- f t ;; numbers_push out v
                  | None => ret tt
                  end)
               (seq 0 len) tt ;;
  ret out.

(** [times.map(f)] *)
Definition numbers_map (f : num -> M num) (a : ref) : M ref :=
  len <- numbers_length a ;;
  out <- alloc (NumberArray []) ;;
  _ <- iterate (fun _ k =>
                  e <- numbers_get a k ;;
                  match e with
                  | Some t => v <- f t ;; numbers_push out v
                  | None => ret tt
                  end)
               (seq 0 len) tt ;;
  ret out.

(** [a.reduce(f, init)] *)
Definition numbers_reduce (f : num -> num -> M num) (init : num) (a : ref)
  : M num :=
  len <- numbers_length a ;;
  iterate (fun acc k =>
             e <- numbers_get a k ;;
             match e with
             | Some v => f acc v
             | None => ret acc
             end)
          (seq 0 len) init.

(** [t.raw] *)
Definition get_raw (t : ref) : M num :=
  o <- read t ;;
  match o with Entry raw _ _ => ret raw | _ => throw end.

(** *** [getTCritical] *)

(** The properties of a row of [tValues]: [{ 0.20: a, 0.10: b, 0.05: c }]. *)
Definition row_cells (abc : R * R * R) : list (num * num) :=
  let '(a, b, c) := abc in
  [ (literal ops 0.20, literal ops a);
    (literal ops 0.10, literal ops b);
    (literal ops 0.05, literal ops c) ].

Fixpoint alloc_all (objects : list (object num)) : M (list ref) :=
  match objects with
  | [] => ret []
  | o :: objects' =>
      r <- alloc o ;; rs <- alloc_all objects' ;; ret (r :: rs)
  end.

Fixpoint lookup_row (key : Z) (rows : list (Z * ref)) : option ref :=
  match rows with
  | [] => None
  | (k, r) :: rows' => if Z.eqb key k then Some r else lookup_row key rows'
  end.

Fixpoint lookup_cell (key : num) (cells : list (num * num)) : option num :=
  match cells with
  | [] => None
  | (k, v) :: cells' =>
      if same_key ops key k then Some v else lookup_cell key cells'
  end.

(** [tValues[key]]; [None] is [undefined]. *)
Definition table_get (t : ref) (key : Z) : M (option ref) :=
  o <- read t ;;
  match o with Table rows => ret (lookup_row key rows) | _ => throw end.

(** [row[key]] *)
Definition row_get (r : ref) (key : num) : M (option num) :=
  o <- read r ;;
  match o with Row cells => ret (lookup_cell key cells) | _ => throw end.

(** [a || b] where [a] may be [undefined]. *)
Definition or_else (a : option num) (b : num) : num :=
  match a with
  | Some v => if to_boolean ops v then v else b
  | None => b
  end.

Definition getTCritical (df : Z) (confidenceLevel : num) : M num :=
  let alpha :=
    div ops (sub ops (literal ops 100) confidenceLevel) (literal ops 100) in
  rows <- alloc_all (map (fun kr => Row (row_cells (snd kr))) tLiterals) ;;
  tValues <- alloc (Table (combine (map fst tLiterals) rows)) ;;
  let df_key := df_key df in
  row <- table_get tValues df_key ;;
  match row with
  | None => throw
  | Some r =>
      cell <- row_get r alpha ;;
      ret (or_else cell (literal ops 2.042))
  end.

(** *** [calculateCI] *)

(** The Number of an array length. *)
Definition of_length (n : nat) : num := literal ops (INR n).

(** [null] is [None]; a result is a reference to a fresh object. *)
Definition calculateCI (parsedTimes : ref) (confidenceLevel : num)
  : M (option ref) :=
  len <- entries_length parsedTimes ;;
  if (len <? 2)%nat then ret None
  else
    times <- entries_map get_raw parsedTimes ;;
    n <- numbers_length times ;;
    logTimes <- numbers_map (fun t => ret (math_log ops t)) times ;;
    logSum <- numbers_reduce (fun sum val => ret (add ops sum val))
                (literal ops 0) logTimes ;;
    let logMean := div ops logSum (of_length n) in
    sqSum <- numbers_reduce
               (fun sum val =>
                  ret (add ops sum (math_pow ops (sub ops val logMean) 2)))
               (literal ops 0) logTimes ;;
    let logVariance :=
      div ops sqSum (sub ops (of_length n) (literal ops 1)) in
    let logSD := math_sqrt ops logVariance in
    let sem := div ops logSD (math_sqrt ops (of_length n)) in
    let df := (Z.of_nat n - 1)%Z in
    tCritical <- getTCritical df confidenceLevel ;;
    let margin := mul ops tCritical sem in
    let logLow := sub ops logMean margin in
    let logHigh := add ops logMean margin in
    let geometricMean := math_exp ops logMean in
    let ciLow := math_exp ops logLow in
    let ciHigh := math_exp ops logHigh in
    total <- numbers_reduce (fun sum val => ret (add ops sum val))
               (literal ops 0) times ;;
    let arithmeticMean := div ops total (of_length n) in
    result <- alloc (ResultObject {|
      n := n;
      geometricMean := geometricMean;
      arithmeticMean := arithmeticMean;
      logMean := logMean;
      logSD := logSD;
      sem := sem;
      df := df;
      tCritical := tCritical;
      margin := margin;
      ciLow := ciLow;
      ciHigh := ciHigh;
      confidenceLevel := confidenceLevel
    |}) ;;
    ret (Some result).

(** *** What is said of a call *)

(** The store [h'] has every object of [h], unchanged. *)
Definition preserved (h h' : heap) : Prop :=
  forall r o, nth_error h r = Some o -> nth_error h' r = Some o.

(** The array at [a] holds references to entries whose values are [raws],
    in this order. *)
Definition sample_at (h : heap) (a : ref) (raws : list num) : Prop :=
  exists elements,
    nth_error h a = Some (EntryArray elements)
    /\ Forall2 (fun t x => exists f l, nth_error h t = Some (Entry x f l))
               elements raws.

(** What a call returned: [null], or a reference to an object with the
    fields [res]. *)
Definition result_at (h : heap) (r : option ref) (res : option (result num))
  : Prop :=
  match r, res with
  | None, None => True
  | Some a, Some fields => nth_error h a = Some (ResultObject fields)
  | _, _ => False
  end.

End Program.

End Store.

(** The operations of the Numbers of this development. *)
Definition number_ops : Store.Ops number := {|
  Store.literal := Fin;
  Store.add := num_add;
  Store.sub := num_sub;
  Store.mul := num_mul;
  Store.div := num_div;
  Store.math_log := Math_log;
  Store.math_exp := Math_exp;
  Store.math_sqrt := Math_sqrt;
  Store.math_pow := Math_pow;
  Store.to_boolean := truthy;
  Store.same_key := num_eqb
|}.

(** The store of the end-to-end example: the five entries, then the array
    [parsedTimes] at address 5. *)
Definition example_heap : Store.heap number :=
  map (fun o => Store.Entry (raw o) (formatted o) (lineNumber o)) example_sample
  ++ [Store.EntryArray [0; 1; 2; 3; 4]%nat].

(** The fields of a result object as a result of the pure estimator. *)
Definition Result_of (fields : Store.result number) : Result.t := {|
  Result.n := Store.n fields;
  Result.geometricMean := Store.geometricMean fields;
  Result.arithmeticMean := Store.arithmeticMean fields;
  Result.logMean := Store.logMean fields;
  Result.logSD := Store.logSD fields;
  Result.sem := Store.sem fields;
  Result.df := Store.df fields;
  Result.tCritical := Store.tCritical fields;
  Result.margin := Store.margin fields;
  Result.ciLow := Store.ciLow fields;
  Result.ciHigh := Store.ciHigh fields;
  Result.confidenceLevel := Store.confidenceLevel fields
|}.

(** ** The rest of the component

    What the claims' code places leave out: the input and select handlers
    with the component state, the conditions of the rendered panels, the
    range shown in the preview, and the conversions they call. *)

Definition CR : ascii := ascii_of_nat 13.

(** The same text with Windows line endings: every LF becomes CR LF. *)
Fixpoint crlf (s : jsstring) : jsstring :=
  match s with
  | [] => []
  | c :: s' => if Ascii.eqb c LF then CR :: LF :: crlf s' else c :: crlf s'
  end.

(** An entry moved [k] lines down. *)
Definition shift_lines (k : nat) (o : TimeEntry) : TimeEntry :=
  {| raw := raw o; formatted := formatted o; lineNumber := lineNumber o + k |}.

(** Text that cannot continue a decimal literal after a whole numeral. *)
Definition ends_numeral (rest : jsstring) : Prop :=
  match rest with
  | [] => True
  | c :: _ =>
      is_digit c = false /\ Ascii.eqb c "." = false
      /\ Ascii.eqb c "e" = false /\ Ascii.eqb c "E" = false
  end.

(** A Number that is a real or +Infinity. *)
Definition real_or_pinf (v : number) : Prop :=
  v = Inf false \/ exists y, v = Fin y.

(** [Math.min] of the arguments [values]: NaN as soon as one argument is
    NaN, +Infinity without arguments.  The limit an engine puts on the
    number of arguments is with the call ([App.spread]). *)
Definition Math_min (values : list number) : number :=
  if existsb isNaN values then NaN
  else fold_left (fun lowest v => if num_ltb v lowest then v else lowest)
                 values (Inf false).

(** [Math.max] of the arguments [values]. *)
Definition Math_max (values : list number) : number :=
  if existsb isNaN values then NaN
  else fold_left (fun highest v => if num_ltb highest v then v else highest)
                 values (Inf true).

(** *** [Number(string)] *)

(** The value of a digit of a non-decimal literal; 99 for any other unit. *)
Definition radix_digit_val (c : ascii) : Z :=
  let k := nat_of_ascii c in
  if ((48 <=? k) && (k <=? 57))%nat then (Z.of_nat k - 48)%Z
  else if ((97 <=? k) && (k <=? 102))%nat then (Z.of_nat k - 87)%Z
  else if ((65 <=? k) && (k <=? 70))%nat then (Z.of_nat k - 55)%Z
  else 99%Z.

Definition radix_value (radix : Z) (ds : jsstring) : Z :=
  fold_left (fun acc c => (radix * acc + radix_digit_val c)%Z) ds 0%Z.

(** NonDecimalIntegerLiteral: [0b], [0o] or [0x] and at least one digit. *)
Definition scan_non_decimal (s : jsstring) : option Z :=
  match s with
  | z :: x :: ds =>
      if Ascii.eqb z "0" then
        let radix :=
          if Ascii.eqb x "b" || Ascii.eqb x "B" then Some 2%Z
          else if Ascii.eqb x "o" || Ascii.eqb x "O" then Some 8%Z
          else if Ascii.eqb x "x" || Ascii.eqb x "X" then Some 16%Z
          else None in
        match radix, ds with
        | Some rdx, _ :: _ =>
            if forallb (fun c => (radix_digit_val c <? rdx)%Z) ds
            then Some (radix_value rdx ds) else None
        | _, _ => None
        end
      else None
  | _ => None
  end.

(** ExponentPart with what follows it. *)
Definition scan_exponent (s : jsstring) : Z * jsstring :=
  match s with
  | c :: r =>
      if Ascii.eqb c "e" || Ascii.eqb c "E" then
        let (neg, r') := parse_sign r in
        match take_digits r' with
        | ([], _) => (0%Z, s)
        | (ds, rest) =>
            (if neg then (- digits_value ds)%Z else digits_value ds, rest)
        end
      else (0%Z, s)
  | [] => (0%Z, s)
  end.

(** The longest StrDecimalLiteral prefix with what follows it. *)
Definition scan_decimal (s : jsstring) : option (StrDecimalLiteral * jsstring) :=
  let (neg, r) := parse_sign s in
  match strip_prefix (js "Infinity") r with
  | Some rest => Some (SDInfinity neg, rest)
  | None =>
      let (ip, r1) := take_digits r in
      let (fp, r2) :=
        match r1 with
        | c :: r1' => if Ascii.eqb c "." then take_digits r1' else ([], r1)
        | [] => ([], r1)
        end in
      match ip, fp with
      | [], [] => None
      | _, _ =>
          let (e, rest) := scan_exponent r2 in
          Some (SDDecimal neg (digits_value (ip ++ fp))
                  (e - Z.of_nat (length fp)), rest)
      end
  end.

(** StringToNumber: the whole trimmed string must be a numeric literal; the
    empty string is 0. *)
Definition Number_of_string (s : jsstring) : number :=
  match String_trim s with
  | [] => Fin 0
  | t =>
      match scan_non_decimal t with
      | Some m => if MV_overflows m 0 then Inf false else Fin (IZR m)
      | None =>
          match scan_decimal t with
          | Some (l, []) => StringNumericValue l
          | _ => NaN
          end
      end
  end.

(** *** State, handlers and rendered panels *)

Module App.

Record State : Type := {
  rawInput : jsstring;
  parsedTimes : list TimeEntry;
  confidenceLevel : number
}.

(** [useState('')], [useState([])], [useState(95)] *)
Definition initial : State :=
  {| rawInput := []; parsedTimes := []; confidenceLevel := Fin 95 |}.

(** The [value] attributes of the three options of the select. *)
Definition option_values : list jsstring := [js "95"; js "90"; js "80"].

(** The select's [onChange]: [setConfidenceLevel(Number(e.target.value))]. *)
Definition handleLevelChange (value : jsstring) (s : State) : State :=
  {| rawInput := rawInput s;
     parsedTimes := parsedTimes s;
     confidenceLevel := Number_of_string value |}.

Inductive event : Type :=
| InputChange (value : jsstring)
| LevelChange (value : jsstring).

(** The text of the latest input change, the level of the latest selection. *)
Definition last_input (events : list event) : jsstring :=
  fold_left (fun acc e => match e with InputChange value => value | _ => acc end)
            events [].

Definition last_level (events : list event) : number :=
  fold_left (fun acc e => match e with
                          | LevelChange value => Number_of_string value
                          | _ => acc
                          end)
            events (Fin 95).

(** The textarea yields any text; the select yields the value of one of its
    options. *)
Definition admissible (e : event) : Prop :=
  match e with
  | InputChange _ => True
  | LevelChange value => In value option_values
  end.

(** What is on screen: the count of detected values under the textarea, the
    preview or its placeholder, the range shown in the preview, the results
    section, the note asking for more data and the one-line summary. *)
Record View : Type := {
  detected : option nat;
  preview : bool;
  placeholder : bool;
  range : option (number * number);
  results : bool;
  note : bool;
  summary : bool
}.

(** A call [f(...args)] that spreads an array.  Every engine bounds the
    number of arguments of a call, by a constant or by the room left on its
    stack, and throws a RangeError beyond the bound; [argument_limit] is the
    bound of the engine where the component is rendered. *)
Section Engine.

Variable argument_limit : nat.

Definition spread (f : list number -> number) (args : list number)
  : completion number :=
  if (length args <=? argument_limit)%nat then Normal (f args) else Throw.

(** The body of the component from [useMemo] on: the estimate, then the
    panels in the order of the markup.  The range is evaluated only inside
    the preview. *)
Definition render (s : State) : completion View :=
  bind (calculateCI (parsedTimes s) (confidenceLevel s)) (fun ci =>
  let some := (0 <? length (parsedTimes s))%nat in
  let shown := match ci with Some _ => true | None => false end in
  bind (if some
        then
          bind (spread Math_min (map raw (parsedTimes s))) (fun lowest =>
          bind (spread Math_max (map raw (parsedTimes s))) (fun highest =>
          Normal (Some (lowest, highest))))
        else Normal None) (fun shown_range =>
  Normal {|
    detected := if some then Some (length (parsedTimes s)) else None;
    preview := some;
    placeholder := negb some;
    range := shown_range;
    results := shown;
    note := some && negb shown;
    summary := some && shown
  |})).

End Engine.

Section Handlers.

Variable Number_toString : number -> jsstring.

(** [setRawInput(e.target.value); parseTimeData(e.target.value)] *)
Definition handleInputChange (value : jsstring) (s : State) : State :=
  {| rawInput := value;
     parsedTimes := parseTimeData Number_toString value;
     confidenceLevel := confidenceLevel s |}.

Definition step (s : State) (e : event) : State :=
  match e with
  | InputChange value => handleInputChange value s
  | LevelChange value => handleLevelChange value s
  end.

(** The state after a sequence of events, from the initial state. *)
Definition run (events : list event) : State := fold_left step events initial.

End Handlers.

End App.

(** * Properties *)

(** ** Deciding comparisons of reals *)

Lemma Rltb_true (x y : R) : x < y -> Rltb x y = true.
Proof. intros H. unfold Rltb. destruct (Rlt_dec x y); [reflexivity | contradiction]. Qed.

Lemma Rltb_false (x y : R) : ~ x < y -> Rltb x y = false.
Proof. intros H. unfold Rltb. destruct (Rlt_dec x y); [contradiction | reflexivity]. Qed.

Lemma Reqb_true (x y : R) : x = y -> Reqb x y = true.
Proof. intros H. unfold Reqb. destruct (Req_dec_T x y); [reflexivity | contradiction]. Qed.

Lemma Reqb_false (x y : R) : x <> y -> Reqb x y = false.
Proof. intros H. unfold Reqb. destruct (Req_dec_T x y); [contradiction | reflexivity]. Qed.

Lemma Rltb_iff (x y : R) : Rltb x y = true <-> x < y.
Proof. unfold Rltb. destruct (Rlt_dec x y); split; intros; try easy. Qed.

Lemma Reqb_iff (x y : R) : Reqb x y = true <-> x = y.
Proof. unfold Reqb. destruct (Req_dec_T x y); split; intros; try easy. Qed.

Lemma num_le_Fin (x y : R) : num_le (Fin x) (Fin y) <-> x <= y.
Proof.
  unfold num_le, num_leb; simpl. rewrite orb_true_iff, Rltb_iff, Reqb_iff.
  split; intros H; [destruct H; lra | destruct (Rle_lt_or_eq_dec _ _ H); auto].
Qed.

Lemma num_le_not_NaN_l (b : number) : ~ num_le NaN b.
Proof. unfold num_le, num_leb; simpl. discriminate. Qed.

Lemma num_le_not_NaN_r (a : number) : ~ num_le a NaN.
Proof. unfold num_le, num_leb; destruct a; simpl; discriminate. Qed.

(** ** The critical-value table *)

Lemma df_key_bucket (df : Z) : df_key df = Spec.bucket df.
Proof.
  unfold df_key, Spec.bucket.
  destruct (Z.leb_spec df 30); [reflexivity |].
  repeat match goal with
         | |- context [(?a <=? ?b)%Z] => destruct (Z.leb_spec a b); try lia
         end.
Qed.

Lemma df_key_cases (df : Z) :
  (1 <= df)%Z ->
  In (df_key df) [1; 2; 3; 4; 5; 6; 7; 8; 9; 10; 15; 20; 25; 30]%Z.
Proof.
  intros H. unfold df_key.
  repeat match goal with
         | |- context [(?a <=? ?b)%Z] => destruct (Z.leb_spec a b)
         end; simpl; lia.
Qed.

(** Every row reachable from [df >= 1] has three positive entries that grow
    as alpha shrinks. *)
Lemma get_row_df_key (df : Z) :
  (1 <= df)%Z ->
  exists a b c,
    get_row (df_key df) tValues = Some (row a b c)
    /\ 0 < a /\ a <= b /\ b <= c
    /\ In (Fin a) table_entries /\ In (Fin b) table_entries
    /\ In (Fin c) table_entries.
Proof.
  intros H. pose proof (df_key_cases H) as Hk. simpl in Hk.
  repeat (destruct Hk as [Hk | Hk];
          [ rewrite <- Hk; simpl; do 3 eexists;
            split; [reflexivity |];
            repeat split; try lra;
            unfold table_entries; simpl; tauto | ]).
  contradiction.
Qed.

Lemma alpha_Fin (c : R) : alpha_of (Fin c) = Fin ((100 - c) / 100).
Proof. unfold alpha_of; simpl. rewrite Reqb_false by lra. reflexivity. Qed.

Lemma alpha_eqb (cl : number) (k : R) :
  num_eqb (alpha_of cl) (Fin k) = true <-> cl = Fin (100 - 100 * k).
Proof.
  destruct cl as [| s | c].
  - simpl. split; discriminate.
  - unfold alpha_of; simpl. split; discriminate.
  - rewrite alpha_Fin. simpl. rewrite Reqb_iff. split; intros H.
    + f_equal. lra.
    + injection H as H. lra.
Qed.

Lemma alpha_eqb_false (cl : number) (k : R) :
  cl <> Fin (100 - 100 * k) -> num_eqb (alpha_of cl) (Fin k) = false.
Proof.
  intros H. destruct (num_eqb (alpha_of cl) (Fin k)) eqn:E; [| reflexivity].
  apply alpha_eqb in E. contradiction.
Qed.

Lemma or_default_pos (v : R) (d : number) :
  0 < v -> or_default (Some (Fin v)) d = Fin v.
Proof. intros H. simpl. rewrite Reqb_false by lra. reflexivity. Qed.

(** What a row yields for each confidence level. *)
Lemma row_lookup (a b c : R) (cl : number) :
  0 < a -> 0 < b -> 0 < c ->
  or_default (get_alpha (alpha_of cl) (row a b c)) (Fin 2.042) =
    Fin (if num_eqb cl (Fin 80) then a
         else if num_eqb cl (Fin 90) then b
         else if num_eqb cl (Fin 95) then c
         else 2.042).
Proof.
  intros Ha Hb Hc. unfold row, get_alpha.
  destruct (num_eqb cl (Fin 80)) eqn:E80.
  { assert (cl = Fin 80) as -> by (destruct cl; simpl in E80; try discriminate;
                                    apply Reqb_iff in E80; congruence).
    rewrite (proj2 (alpha_eqb (Fin 80) 0.20)) by (f_equal; lra).
    now apply or_default_pos. }
  rewrite alpha_eqb_false.
  2:{ intros ->. simpl in E80. rewrite Reqb_true in E80 by lra. discriminate. }
  destruct (num_eqb cl (Fin 90)) eqn:E90.
  { assert (cl = Fin 90) as -> by (destruct cl; simpl in E90; try discriminate;
                                    apply Reqb_iff in E90; congruence).
    rewrite (proj2 (alpha_eqb (Fin 90) 0.10)) by (f_equal; lra).
    now apply or_default_pos. }
  rewrite alpha_eqb_false.
  2:{ intros ->. simpl in E90. rewrite Reqb_true in E90 by lra. discriminate. }
  destruct (num_eqb cl (Fin 95)) eqn:E95.
  { assert (cl = Fin 95) as -> by (destruct cl; simpl in E95; try discriminate;
                                    apply Reqb_iff in E95; congruence).
    rewrite (proj2 (alpha_eqb (Fin 95) 0.05)) by (f_equal; lra).
    now apply or_default_pos. }
  rewrite alpha_eqb_false.
  2:{ intros ->. simpl in E95. rewrite Reqb_true in E95 by lra. discriminate. }
  reflexivity.
Qed.

Lemma getTCritical_row (df : Z) (cl : number) (a b c : R) :
  get_row (df_key df) tValues = Some (row a b c) ->
  getTCritical df cl =
    Normal (or_default (get_alpha (alpha_of cl) (row a b c)) (Fin 2.042)).
Proof. intros H. unfold getTCritical. rewrite H. reflexivity. Qed.

Lemma num_eqb_Fin_true (cl : number) (k : R) :
  num_eqb cl (Fin k) = true <-> cl = Fin k.
Proof.
  destruct cl; simpl; try (split; discriminate).
  rewrite Reqb_iff. split; congruence.
Qed.

Lemma num_eqb_Fin_false (cl : number) (k : R) :
  cl <> Fin k -> num_eqb cl (Fin k) = false.
Proof.
  intros H. destruct (num_eqb cl (Fin k)) eqn:E; [| reflexivity].
  apply num_eqb_Fin_true in E. contradiction.
Qed.

(** For [df >= 1] the lookup returns: the entry of the row for the level,
    or the fallback. *)
Lemma getTCritical_value (df : Z) (cl : number) :
  (1 <= df)%Z ->
  exists a b c,
    get_row (df_key df) tValues = Some (row a b c)
    /\ 0 < a /\ a <= b /\ b <= c
    /\ In (Fin a) table_entries /\ In (Fin b) table_entries
    /\ In (Fin c) table_entries
    /\ getTCritical df cl =
         Normal (Fin (if num_eqb cl (Fin 80) then a
                      else if num_eqb cl (Fin 90) then b
                      else if num_eqb cl (Fin 95) then c
                      else 2.042)).
Proof.
  intros H. destruct (get_row_df_key H) as (a & b & c & Hr & Ha & Hab & Hbc & Ia & Ib & Ic).
  exists a, b, c. repeat split; try assumption.
  rewrite (getTCritical_row _ _ Hr). rewrite row_lookup by lra. reflexivity.
Qed.

Lemma getTCritical_at (df : Z) (cl a b c : R) :
  get_row (df_key df) tValues = Some (row a b c) ->
  0 < a -> 0 < b -> 0 < c ->
  getTCritical df (Fin cl) =
    Normal (Fin (if Reqb cl 80 then a else if Reqb cl 90 then b
                 else if Reqb cl 95 then c else 2.042)).
Proof.
  intros Hr Ha Hb Hc. rewrite (getTCritical_row _ _ Hr).
  rewrite row_lookup by assumption. reflexivity.
Qed.

(** C3: the bucketing of degrees of freedom follows the bands
    [df <= 10 -> df], [10 < df <= 15 -> 15], [15 < df <= 20 -> 20],
    [20 < df <= 25 -> 25], [df > 25 -> 30]; and at confidence level 95 the
    critical values for df = 10, 11, 30 and 50 are 2.228, 2.131, 2.042 and
    2.042. *)
Theorem getTCritical_bands :
  (forall df, (df <= 10)%Z -> df_key df = df)
  /\ (forall df, (10 < df <= 15)%Z -> df_key df = 15%Z)
  /\ (forall df, (15 < df <= 20)%Z -> df_key df = 20%Z)
  /\ (forall df, (20 < df <= 25)%Z -> df_key df = 25%Z)
  /\ (forall df, (25 < df)%Z -> df_key df = 30%Z)
  /\ getTCritical 10 (Fin 95) = Normal (Fin 2.228)
  /\ getTCritical 11 (Fin 95) = Normal (Fin 2.131)
  /\ getTCritical 30 (Fin 95) = Normal (Fin 2.042)
  /\ getTCritical 50 (Fin 95) = Normal (Fin 2.042).
Proof.
  repeat split;
    try (intros df H; unfold df_key;
         repeat match goal with
                | |- context [(?a <=? ?b)%Z] => destruct (Z.leb_spec a b); try lia
                end).
  all: erewrite getTCritical_at by (try reflexivity; lra);
    rewrite !Reqb_false by lra; rewrite Reqb_true by lra; reflexivity.
Qed.

Lemma getTCritical_bands_witness :
  df_key 7 = 7%Z /\ df_key 13 = 15%Z /\ df_key 16 = 20%Z
  /\ df_key 25 = 25%Z /\ df_key 26 = 30%Z.
Proof.
  destruct getTCritical_bands as (H1 & H2 & H3 & H4 & H5 & _).
  split; [apply H1; lia |].
  split; [apply H2; lia |].
  split; [apply H3; lia |].
  split; [apply H4; lia | apply H5; lia].
Defined.

(** C5: for every [df >= 1] the lookup returns a value and never throws;
    when the table has no entry for the bucket and alpha, and in particular
    when the confidence level is none of 95, 90 and 80, the value is the
    fallback 2.042, which is also the entry for df 30 at level 95. *)
Theorem getTCritical_total (df : Z) (cl : number) :
  (1 <= df)%Z ->
  exists v,
    getTCritical df cl = Normal v
    /\ ((forall r, get_row (df_key df) tValues = Some r ->
                   get_alpha (alpha_of cl) r = None) ->
        v = Fin 2.042)
    /\ (cl <> Fin 95 -> cl <> Fin 90 -> cl <> Fin 80 -> v = Fin 2.042)
    /\ getTCritical 30 (Fin 95) = Normal (Fin 2.042).
Proof.
  intros H.
  destruct (getTCritical_value cl H) as (a & b & c & Hr & Ha & Hab & Hbc & _ & _ & _ & Hv).
  eexists. split; [exact Hv |]. split; [| split].
  3:{ erewrite getTCritical_at by (try reflexivity; lra).
      rewrite !Reqb_false by lra. rewrite Reqb_true by lra. reflexivity. }
  - intros Habs. specialize (Habs _ Hr).
    pose proof (getTCritical_row df cl Hr) as E. rewrite Habs in E. simpl in E.
    rewrite Hv in E. injection E as E. now rewrite E.
  - intros H95 H90 H80. now rewrite !num_eqb_Fin_false by assumption.
Qed.

Lemma getTCritical_total_witness :
  getTCritical 3 (Fin 99) = Normal (Fin 2.042).
Proof.
  destruct (getTCritical_total (df := 3) (Fin 99)) as (v & Hv & _ & Hfb & _);
    [lia |].
  rewrite Hv. f_equal. apply Hfb; intros E; injection E as E; lra.
Defined.

(** ** Arithmetic on Numbers *)

Lemma num_add_assoc (a b c : number) : (a + (b + c) = (a + b) + c)%num.
Proof.
  destruct a as [| [] | x], b as [| [] | y], c as [| [] | z]; simpl;
    try reflexivity.
  f_equal. ring.
Qed.

Lemma num_add_0_l (a : number) : (Fin 0 + a)%num = a.
Proof. destruct a; simpl; try reflexivity. f_equal. ring. Qed.

Lemma Math_pow_2 (a : number) : Math_pow a 2 = Spec.square a.
Proof.
  destruct a as [| [] | x]; simpl; try reflexivity.
  unfold Spec.square; simpl. f_equal. ring.
Qed.

Lemma fold_left_add (l : list number) (a : number) :
  fold_left (fun sum val => sum + val)%num l a = (a + Spec.sum l)%num.
Proof.
  revert a. induction l as [| x l IH]; intros a; simpl.
  - destruct a; simpl; try reflexivity. f_equal. ring.
  - rewrite IH. now rewrite num_add_assoc.
Qed.

Lemma fold_left_add_map (f : number -> number) (l : list number) (a : number) :
  fold_left (fun sum val => sum + f val)%num l a = (a + Spec.sum (map f l))%num.
Proof.
  revert a. induction l as [| x l IH]; intros a; simpl.
  - destruct a; simpl; try reflexivity. f_equal. ring.
  - rewrite IH. now rewrite num_add_assoc.
Qed.

Lemma of_Z_pred (n : nat) : of_Z (Z.of_nat n - 1) = (of_nat n - Fin 1)%num.
Proof.
  unfold of_Z, of_nat; simpl. f_equal.
  rewrite minus_IZR, <- INR_IZR_INZ. reflexivity.
Qed.

(** ** The estimator *)

Lemma getTCritical_spec (df : Z) (cl : number) :
  (1 <= df)%Z -> getTCritical df cl = Normal (Spec.tCritical df cl).
Proof.
  intros H.
  destruct (get_row_df_key H) as (a & b & c & Hr & Ha & Hab & Hbc & _).
  unfold getTCritical, Spec.tCritical. rewrite <- df_key_bucket, Hr.
  unfold Spec.alpha. fold (alpha_of cl). f_equal. unfold row, get_alpha.
  repeat match goal with
         | |- context [if ?b then _ else _] => destruct b
         end;
    try reflexivity; apply or_default_pos; lra.
Qed.

(** The estimator computes the specification's formulas. *)
Lemma calculateCI_estimate (sample : list TimeEntry) (cl : number) :
  calculateCI sample cl = Normal (Spec.estimate sample cl).
Proof.
  unfold calculateCI, Spec.estimate.
  destruct (Nat.ltb_spec (length sample) 2) as [Hlt | Hge]; [reflexivity |].
  rewrite !length_map, map_map.
  rewrite getTCritical_spec by lia. cbn [bind].
  unfold Spec.marginInLogSpace, Spec.standardErrorOfLogMean, Spec.logSD,
    Spec.logVariance, Spec.arithmeticMean, Spec.logMean, Spec.logTimes,
    Spec.degreesOfFreedom, Spec.mean.
  rewrite !length_map.
  rewrite !fold_left_add, !num_add_0_l.
  rewrite (fold_left_add_map (fun val => Math_pow (val - _) 2)%num), num_add_0_l.
  rewrite of_Z_pred.
  rewrite (map_ext (fun val => Math_pow (val - _) 2)%num
                   (fun l => Spec.square (l - _)%num))
    by (intros; apply Math_pow_2).
  reflexivity.
Qed.

(** C1: on a sample of at least two values the estimator returns a record
    whose fields are: the mean of the natural logarithms of the values, the
    square root of their Bessel-corrected variance, the standard error
    [logSD / sqrt n], [n - 1] degrees of freedom, the critical value of the
    table, the margin [tCritical * standardError], the exponentials of the
    mean and of the mean minus and plus the margin, the mean of the raw
    values, [n] and the confidence level. *)
Theorem calculateCI_formulas (sample : list TimeEntry) (cl : number) :
  (2 <= length sample)%nat ->
  exists r,
    calculateCI sample cl = Normal (Some r)
    /\ Result.n r = length sample
    /\ Result.logMean r = Spec.mean (map (fun o => Math_log (raw o)) sample)
    /\ Result.logSD r =
         Math_sqrt
           (Spec.sum (map (fun l => Spec.square (l - Result.logMean r))
                          (map (fun o => Math_log (raw o)) sample))
            / (of_nat (length sample) - Fin 1))%num
    /\ Result.sem r = (Result.logSD r / Math_sqrt (of_nat (length sample)))%num
    /\ Result.df r = (Z.of_nat (length sample) - 1)%Z
    /\ Result.tCritical r = Spec.tCritical (Result.df r) cl
    /\ Result.margin r = (Result.tCritical r * Result.sem r)%num
    /\ Result.geometricMean r = Math_exp (Result.logMean r)
    /\ Result.ciLow r = Math_exp (Result.logMean r - Result.margin r)%num
    /\ Result.ciHigh r = Math_exp (Result.logMean r + Result.margin r)%num
    /\ Result.arithmeticMean r = Spec.mean (map raw sample)
    /\ Result.confidenceLevel r = cl.
Proof.
  intros Hge. rewrite calculateCI_estimate. unfold Spec.estimate.
  destruct (Nat.ltb_spec (length sample) 2) as [Hlt | _]; [lia |].
  eexists. split; [reflexivity |]. cbn [Result.n Result.logMean Result.logSD
    Result.sem Result.df Result.tCritical Result.margin Result.geometricMean
    Result.ciLow Result.ciHigh Result.arithmeticMean Result.confidenceLevel].
  repeat split.
Qed.

(** C4: the estimator returns no result exactly on the samples of size 0
    or 1, whatever the confidence level; on every sample of size at least 2
    it returns a result record, and never throws. *)
Theorem calculateCI_undefined_iff (sample : list TimeEntry) (cl : number) :
  (calculateCI sample cl = Normal None <-> (length sample < 2)%nat)
  /\ ((2 <= length sample)%nat ->
      exists r, calculateCI sample cl = Normal (Some r)
                /\ Result.n r = length sample
                /\ Result.df r = (Z.of_nat (length sample) - 1)%Z
                /\ Result.confidenceLevel r = cl).
Proof.
  rewrite calculateCI_estimate. unfold Spec.estimate.
  destruct (Nat.ltb_spec (length sample) 2) as [Hlt | Hge].
  - split; [tauto | intros; lia].
  - split.
    + split; [discriminate | lia].
    + intros _. eexists. split; [reflexivity |]. simpl. auto.
Qed.

(** ** Samples of finite, strictly positive values *)

Lemma num_div_Fin (x y : R) : y <> 0 -> (Fin x / Fin y)%num = Fin (x / y).
Proof. intros H. simpl. now rewrite Reqb_false. Qed.

Lemma Math_sqrt_Fin (x : R) : 0 <= x -> Math_sqrt (Fin x) = Fin (sqrt x).
Proof. intros H. simpl. rewrite Rltb_false by lra. reflexivity. Qed.

Lemma Math_log_Fin (x : R) : 0 < x -> Math_log (Fin x) = Fin (ln x).
Proof.
  intros H. simpl. rewrite Rltb_false by lra. rewrite Reqb_false by lra.
  reflexivity.
Qed.

Lemma map_log_Fin (xs : list R) :
  Forall (fun x => 0 < x) xs ->
  map Math_log (map Fin xs) = map Fin (map ln xs).
Proof.
  induction 1 as [| x xs Hx _ IH]; simpl; [reflexivity |].
  rewrite IH. f_equal. now apply Math_log_Fin.
Qed.

Lemma sum_Fin (ls : list R) : Spec.sum (map Fin ls) = Fin (Rsum ls).
Proof.
  induction ls as [| l ls IH]; simpl; [reflexivity |].
  rewrite IH. reflexivity.
Qed.

Lemma INR_length_pos (A : Type) (l : list A) :
  (1 <= length l)%nat -> 0 < INR (length l).
Proof. intros H. apply lt_0_INR. lia. Qed.

Lemma INR_length_ge_2 (A : Type) (l : list A) :
  (2 <= length l)%nat -> 2 <= INR (length l).
Proof. intros H. apply le_INR in H. simpl in H. lra. Qed.

Lemma mean_Fin (ls : list R) :
  (1 <= length ls)%nat -> Spec.mean (map Fin ls) = Fin (Rmean ls).
Proof.
  intros H. unfold Spec.mean, Rmean, of_nat. rewrite sum_Fin, length_map.
  apply num_div_Fin. pose proof (INR_length_pos ls H). lra.
Qed.

Lemma squares_Fin (m : R) (ls : list R) :
  map (fun l => Spec.square (l - Fin m)%num) (map Fin ls)
  = map Fin (map (fun l => (l - m) ^ 2) ls).
Proof.
  induction ls as [| l ls IH]; simpl; [reflexivity |].
  rewrite IH. f_equal. unfold Spec.square; simpl. f_equal. ring.
Qed.

Lemma Rsum_nonneg (ls : list R) : Forall (fun l => 0 <= l) ls -> 0 <= Rsum ls.
Proof. induction 1; simpl; lra. Qed.

Lemma Rsum_squares_nonneg (m : R) (ls : list R) :
  0 <= Rsum (map (fun l => (l - m) ^ 2) ls).
Proof.
  apply Rsum_nonneg, Forall_forall. intros y Hy.
  apply in_map_iff in Hy as (l & <- & _). apply pow2_ge_0.
Qed.

Lemma Rlogvar_nonneg (xs : list R) : (2 <= length xs)%nat -> 0 <= Rlogvar xs.
Proof.
  intros H. unfold Rlogvar. pose proof (INR_length_ge_2 xs H).
  apply Rmult_le_pos; [apply Rsum_squares_nonneg |].
  apply Rlt_le, Rinv_0_lt_compat. lra.
Qed.

Lemma Rsem_nonneg (xs : list R) : (2 <= length xs)%nat -> 0 <= Rsem xs.
Proof.
  intros H. unfold Rsem. pose proof (INR_length_ge_2 xs H).
  apply Rmult_le_pos; [apply sqrt_pos |].
  apply Rlt_le, Rinv_0_lt_compat, sqrt_lt_R0. lra.
Qed.

Section FinitePositive.

Variable sample : list TimeEntry.
Variable xs : list R.
Hypothesis Hfp : finite_positive sample xs.
Hypothesis Hn : (2 <= length sample)%nat.

Lemma fp_length : length sample = length xs.
Proof.
  destruct Hfp as [E _]. apply (f_equal (@length _)) in E.
  now rewrite !length_map in E.
Qed.

Lemma fp_logTimes : Spec.logTimes sample = map Fin (map ln xs).
Proof.
  destruct Hfp as [E Hpos]. unfold Spec.logTimes.
  rewrite <- (map_map raw Math_log), E. now apply map_log_Fin.
Qed.

Lemma fp_logMean : Spec.logMean sample = Fin (Rlogmean xs).
Proof.
  unfold Spec.logMean. rewrite fp_logTimes. apply mean_Fin.
  rewrite length_map, <- fp_length. lia.
Qed.

Lemma fp_logVariance : Spec.logVariance sample = Fin (Rlogvar xs).
Proof.
  unfold Spec.logVariance. rewrite fp_logMean, fp_logTimes, squares_Fin, sum_Fin.
  unfold of_nat. cbn [num_sub]. rewrite fp_length. apply num_div_Fin.
  pose proof (@INR_length_ge_2 _ xs). rewrite <- fp_length in H at 1.
  specialize (H Hn). lra.
Qed.

Lemma fp_logSD : Spec.logSD sample = Fin (sqrt (Rlogvar xs)).
Proof.
  unfold Spec.logSD. rewrite fp_logVariance. apply Math_sqrt_Fin.
  apply Rlogvar_nonneg. rewrite <- fp_length. exact Hn.
Qed.

Lemma fp_sem : Spec.standardErrorOfLogMean sample = Fin (Rsem xs).
Proof.
  unfold Spec.standardErrorOfLogMean, of_nat. rewrite fp_logSD, fp_length.
  assert (H : 2 <= INR (length xs))
    by (apply INR_length_ge_2; rewrite <- fp_length; exact Hn).
  rewrite Math_sqrt_Fin by lra. apply num_div_Fin.
  assert (0 < sqrt (INR (length xs))) by (apply sqrt_lt_R0; lra). lra.
Qed.

Lemma fp_arithmeticMean : Spec.arithmeticMean sample = Fin (Rmean xs).
Proof.
  unfold Spec.arithmeticMean. destruct Hfp as [E _]. rewrite E.
  apply mean_Fin. rewrite <- fp_length. lia.
Qed.

(** The result on a finite positive sample, over the reals. *)
Lemma fp_estimate (cl : number) (r : Result.t) :
  calculateCI sample cl = Normal (Some r) ->
  exists t,
    0 < t
    /\ getTCritical (Z.of_nat (length sample) - 1) cl = Normal (Fin t)
    /\ Result.tCritical r = Fin t
    /\ Result.logMean r = Fin (Rlogmean xs)
    /\ Result.sem r = Fin (Rsem xs)
    /\ Result.margin r = Fin (t * Rsem xs)
    /\ Result.geometricMean r = Fin (exp (Rlogmean xs))
    /\ Result.ciLow r = Fin (exp (Rlogmean xs - t * Rsem xs))
    /\ Result.ciHigh r = Fin (exp (Rlogmean xs + t * Rsem xs))
    /\ Result.arithmeticMean r = Fin (Rmean xs).
Proof.
  rewrite calculateCI_estimate. unfold Spec.estimate.
  destruct (Nat.ltb_spec (length sample) 2) as [Hlt | _]; [lia |].
  intros E. injection E as <-.
  cbn [Result.n Result.logMean Result.logSD Result.sem Result.df
       Result.tCritical Result.margin Result.geometricMean Result.ciLow
       Result.ciHigh Result.arithmeticMean Result.confidenceLevel].
  unfold Spec.marginInLogSpace, Spec.degreesOfFreedom.
  assert (Hdf : (1 <= Z.of_nat (length sample) - 1)%Z) by lia.
  destruct (getTCritical_value cl Hdf)
    as (a & b & c & _ & Ha & Hab & Hbc & _ & _ & _ & Hv).
  pose proof (getTCritical_spec cl Hdf) as Hs. rewrite Hv in Hs.
  injection Hs as Hs. rewrite <- Hs, fp_logMean, fp_sem, fp_arithmeticMean.
  eexists. split; [| split; [exact Hv |]; repeat split].
  repeat match goal with
         | |- context [if ?b then _ else _] => destruct b
         end; lra.
Qed.

End FinitePositive.

Lemma calculateCI_Some_length (sample : list TimeEntry) (cl : number) (r : Result.t) :
  calculateCI sample cl = Normal (Some r) -> (2 <= length sample)%nat.
Proof.
  rewrite calculateCI_estimate. unfold Spec.estimate.
  destruct (Nat.ltb_spec (length sample) 2); [discriminate | auto].
Qed.

Lemma exp_le (x y : R) : x <= y -> exp x <= exp y.
Proof.
  intros [H | ->]; [apply Rlt_le, exp_increasing, H | apply Rle_refl].
Qed.

(** The three critical values of a bucket grow with the confidence level. *)
Lemma getTCritical_levels (df : Z) :
  (1 <= df)%Z ->
  exists a b c,
    0 < a /\ a <= b /\ b <= c
    /\ getTCritical df (Fin 80) = Normal (Fin a)
    /\ getTCritical df (Fin 90) = Normal (Fin b)
    /\ getTCritical df (Fin 95) = Normal (Fin c).
Proof.
  intros H.
  destruct (get_row_df_key H) as (a & b & c & Hr & Ha & Hab & Hbc & _).
  exists a, b, c. repeat split; try assumption.
  all: rewrite (getTCritical_at _ _ Hr) by lra.
  - rewrite Reqb_true by lra. reflexivity.
  - rewrite Reqb_false by lra. rewrite Reqb_true by lra. reflexivity.
  - rewrite !Reqb_false by lra. rewrite Reqb_true by lra. reflexivity.
Qed.

(** C6, for finite values: when the estimator produces a result from a
    sample whose values are all finite and strictly positive, the result
    satisfies [ciLow <= geometricMean <= ciHigh]. *)
Theorem ci_contains_geometric_mean
    (sample : list TimeEntry) (xs : list R) (cl : number) (r : Result.t) :
  finite_positive sample xs ->
  calculateCI sample cl = Normal (Some r) ->
  num_le (Result.ciLow r) (Result.geometricMean r)
  /\ num_le (Result.geometricMean r) (Result.ciHigh r).
Proof.
  intros Hfp Hr. pose proof (calculateCI_Some_length _ _ Hr) as Hn.
  destruct (fp_estimate Hfp Hn _ Hr)
    as (t & Ht & _ & _ & _ & _ & _ & -> & -> & -> & _).
  assert (Hs : 0 <= Rsem xs)
    by (apply Rsem_nonneg; rewrite <- (fp_length Hfp); exact Hn).
  assert (0 <= t * Rsem xs) by (apply Rmult_le_pos; lra).
  split; apply num_le_Fin, exp_le; lra.
Qed.

(** The margin of any result is NaN, +Infinity or a non-negative real. *)
Lemma Math_sqrt_range (a : number) :
  Math_sqrt a = NaN \/ Math_sqrt a = Inf false
  \/ exists s, Math_sqrt a = Fin s /\ 0 <= s.
Proof.
  destruct a as [| [] | x]; simpl; auto.
  destruct (Rltb x 0); auto. right; right. eexists; split; [reflexivity |].
  apply sqrt_pos.
Qed.

Lemma margin_range (sample : list TimeEntry) (cl : number) (r : Result.t) :
  calculateCI sample cl = Normal (Some r) ->
  Result.margin r = NaN \/ num_le (Fin 0) (Result.margin r).
Proof.
  intros Hr. pose proof (calculateCI_Some_length _ _ Hr) as Hn.
  rewrite calculateCI_estimate in Hr. unfold Spec.estimate in Hr.
  destruct (Nat.ltb_spec (length sample) 2); [lia |].
  injection Hr as <-. cbn [Result.margin].
  unfold Spec.marginInLogSpace, Spec.standardErrorOfLogMean, Spec.logSD,
    Spec.degreesOfFreedom, of_nat.
  assert (Hdf : (1 <= Z.of_nat (length sample) - 1)%Z) by lia.
  destruct (getTCritical_value cl Hdf)
    as (a & b & c & _ & Ha & Hab & Hbc & _ & _ & _ & Hv).
  pose proof (getTCritical_spec cl Hdf) as Hs. rewrite Hv in Hs.
  injection Hs as Hs. rewrite <- Hs.
  match goal with |- context [Fin ?e] =>
    match e with (if _ then _ else _) =>
      assert (Ht : 0 < e)
        by (repeat match goal with
                   | |- context [if ?b then _ else _] => destruct b
                   end; lra);
      generalize dependent e
    end
  end.
  intros t _ Ht.
  pose proof (INR_length_ge_2 sample Hn) as Hlen.
  rewrite (Math_sqrt_Fin (x := INR (length sample))) by lra.
  assert (Hq : 0 < sqrt (INR (length sample))) by (apply sqrt_lt_R0; lra).
  destruct (Math_sqrt_range (Spec.logVariance sample)) as [-> | [-> | (s & -> & Hs')]].
  - left. reflexivity.
  - right. cbn [num_div]. rewrite Rltb_false by lra. cbn [xorb num_mul].
    rewrite Reqb_false by lra. rewrite Rltb_false by lra. reflexivity.
  - right. rewrite num_div_Fin by lra. cbn [num_mul]. apply num_le_Fin.
    apply Rmult_le_pos; [lra |]. apply Rmult_le_pos; [lra |].
    apply Rlt_le, Rinv_0_lt_compat, Hq.
Qed.

(** C10, with the margin as the code has it: for every [df >= 1] and every
    confidence level the critical value is a strictly positive real that is
    one of the 42 entries of the table or the fallback 2.042; the margin of
    a result is never negative: it is NaN or at least 0, and at least 0
    when the values of the sample are finite and strictly positive. *)
Theorem tCritical_positive_margin_nonneg :
  length table_entries = 42%nat
  /\ (forall df cl, (1 <= df)%Z ->
        exists t, getTCritical df cl = Normal (Fin t) /\ 0 < t
                  /\ In (Fin t) (Fin 2.042 :: table_entries))
  /\ (forall sample cl r,
        calculateCI sample cl = Normal (Some r) ->
        Result.margin r = (Result.tCritical r * Result.sem r)%num
        /\ (Result.margin r = NaN \/ num_le (Fin 0) (Result.margin r)))
  /\ (forall sample xs cl r,
        finite_positive sample xs ->
        calculateCI sample cl = Normal (Some r) ->
        num_le (Fin 0) (Result.margin r)).
Proof.
  split; [reflexivity |]. split; [| split].
  - intros df cl H.
    destruct (getTCritical_value cl H)
      as (a & b & c & _ & Ha & Hab & Hbc & Ia & Ib & Ic & Hv).
    eexists. split; [exact Hv |].
    repeat match goal with
           | |- context [if ?b then _ else _] => destruct b
           end; (split; [lra |]); simpl; auto.
  - intros sample cl r Hr. split; [| exact (margin_range _ _ Hr)].
    rewrite calculateCI_estimate in Hr. unfold Spec.estimate in Hr.
    destruct (length sample <? 2)%nat; [discriminate |].
    injection Hr as <-. reflexivity.
  - intros sample xs cl r Hfp Hr.
    pose proof (calculateCI_Some_length _ _ Hr) as Hn.
    destruct (fp_estimate Hfp Hn _ Hr)
      as (t & Ht & _ & _ & _ & _ & -> & _).
    assert (Hs : 0 <= Rsem xs)
      by (apply Rsem_nonneg; rewrite <- (fp_length Hfp); exact Hn).
    apply num_le_Fin, Rmult_le_pos; lra.
Qed.

(** ** Sums and means of positive reals *)

Lemma Rsum_pos (xs : list R) :
  Forall (fun x => 0 < x) xs -> (1 <= length xs)%nat -> 0 < Rsum xs.
Proof.
  induction 1 as [| x xs Hx Hxs IH]; simpl; [lia |]. intros _.
  destruct xs as [| y ys]; [simpl; lra |].
  assert (0 < Rsum (y :: ys)) by (apply IH; simpl; lia).
  fold (Rsum (y :: ys)). lra.
Qed.

Lemma Rmean_pos (xs : list R) :
  Forall (fun x => 0 < x) xs -> (1 <= length xs)%nat -> 0 < Rmean xs.
Proof.
  intros Hpos Hn. unfold Rmean. apply Rdiv_lt_0_compat.
  - now apply Rsum_pos.
  - now apply INR_length_pos.
Qed.

(** ** The parser *)

Lemma pushLine_valid (toStr : number -> jsstring) (times : list TimeEntry)
    (line : jsstring) (index : nat) :
  pushLine toStr times line index =
    if valid line then times ++ [entry_of toStr index line] else times.
Proof.
  unfold pushLine, valid, entry_of.
  destruct (nonempty (String_trim line)); [| reflexivity].
  cbn [andb].
  destruct (negb (isNaN (parseFloat (String_trim line)))
            && num_gtb (parseFloat (String_trim line)) (Fin 0)); reflexivity.
Qed.

Lemma forEach_pushLine (toStr : number -> jsstring) (lines : list jsstring)
    (i : nat) (acc : list TimeEntry) :
  forEach (pushLine toStr) lines i acc =
    acc ++ map (fun p => entry_of toStr (fst p) (snd p))
               (filter (fun p => valid (snd p)) (indexed_from i lines)).
Proof.
  revert i acc. induction lines as [| l lines IH]; intros i acc.
  - simpl. now rewrite app_nil_r.
  - cbn [forEach]. rewrite IH, pushLine_valid.
    unfold indexed_from. cbn [length seq combine filter snd].
    destruct (valid l); [| reflexivity].
    cbn [map fst snd]. now rewrite <- app_assoc.
Qed.

Lemma trim_start_nil_iff (s : jsstring) :
  trim_start s = [] <-> forallb is_ws s = true.
Proof.
  induction s as [| c s IH]; simpl; [tauto |].
  destruct (is_ws c); simpl; [exact IH |]. split; discriminate.
Qed.

Lemma trim_start_head (s t : jsstring) (c : ascii) :
  trim_start s = c :: t -> is_ws c = false.
Proof.
  induction s as [| d s IH]; simpl; [discriminate |].
  destruct (is_ws d) eqn:E; [exact IH |]. intros H. injection H as <- _. exact E.
Qed.

Lemma forallb_rev (A : Type) (f : A -> bool) (l : list A) :
  forallb f (rev l) = forallb f l.
Proof.
  destruct (forallb f l) eqn:E.
  - rewrite forallb_forall in *. intros x Hx. apply E. now apply in_rev.
  - destruct (forallb f (rev l)) eqn:E'; [| reflexivity].
    rewrite <- E. symmetry. rewrite forallb_forall in *. intros x Hx.
    apply E'. now apply in_rev in Hx.
Qed.

Lemma String_trim_nil_iff (s : jsstring) :
  String_trim s = [] <-> forallb is_ws s = true.
Proof.
  unfold String_trim, trim_end. split.
  - intros H. apply (f_equal (@rev _)) in H. rewrite rev_involutive in H.
    simpl in H. apply trim_start_nil_iff in H. rewrite forallb_rev in H.
    destruct (trim_start s) as [| c t] eqn:E.
    + now apply trim_start_nil_iff.
    + apply trim_start_head in E. simpl in H. rewrite E in H. discriminate.
  - intros H. apply trim_start_nil_iff in H. rewrite H. reflexivity.
Qed.

Lemma String_split_chars (sep : ascii) (s line : jsstring) (c : ascii) :
  In line (String_split sep s) -> In c line -> In c s.
Proof.
  revert line. induction s as [| d s IH]; intros line Hl Hc.
  - simpl in Hl. destruct Hl as [<- | []]. exact Hc.
  - simpl in Hl. destruct (Ascii.eqb d sep).
    + destruct Hl as [<- | Hl]; [destruct Hc |]. right. eapply IH; eauto.
    + destruct (String_split sep s) as [| l ls] eqn:E.
      * destruct Hl as [<- | []]. destruct Hc as [<- | []]. now left.
      * destruct Hl as [<- | Hl].
        -- destruct Hc as [<- | Hc]; [now left |]. right.
           apply (IH l); [now left | exact Hc].
        -- right. apply (IH line); [now right | exact Hc].
Qed.

Lemma blank_input_no_valid_line (input line : jsstring) :
  nonempty (String_trim input) = false ->
  In line (String_split LF input) -> valid line = false.
Proof.
  intros H Hl.
  assert (Hws : forallb is_ws input = true).
  { apply String_trim_nil_iff. destruct (String_trim input); [reflexivity | discriminate]. }
  assert (Hline : String_trim line = []).
  { apply String_trim_nil_iff. rewrite forallb_forall in *. intros c Hc.
    apply Hws. eapply String_split_chars; eauto. }
  unfold valid. rewrite Hline. reflexivity.
Qed.

Lemma filter_none (A : Type) (f : A -> bool) (l : list A) :
  (forall x, In x l -> f x = false) -> filter f l = [].
Proof.
  induction l as [| a l IH]; intros H; simpl; [reflexivity |].
  rewrite (H a) by now left. apply IH. intros x Hx. apply H. now right.
Qed.

(** The parsed sample is made of the valid lines of the input, in order. *)
Lemma parseTimeData_filter (toStr : number -> jsstring) (input : jsstring) :
  parseTimeData toStr input =
    map (fun p => entry_of toStr (fst p) (snd p))
        (filter (fun p => valid (snd p))
                (indexed_from 0 (String_split LF input))).
Proof.
  unfold parseTimeData.
  destruct (nonempty (String_trim input)) eqn:E; cbn [negb].
  - now rewrite forEach_pushLine.
  - rewrite filter_none; [reflexivity |].
    intros [k l] Hin. cbn [snd].
    eapply blank_input_no_valid_line; [exact E |].
    unfold indexed_from in Hin. now apply in_combine_r in Hin.
Qed.

Lemma in_indexed_from (i k : nat) (l : jsstring) (lines : list jsstring) :
  In (k, l) (indexed_from i lines) <->
  (i <= k)%nat /\ nth_error lines (k - i) = Some l.
Proof.
  revert i. unfold indexed_from.
  induction lines as [| a lines IH]; intros i; cbn [length seq combine].
  - simpl. split; [tauto |]. intros [_ H]. destruct (k - i)%nat; discriminate.
  - cbn [In]. rewrite IH. split.
    + intros [E | [Hle Hn]].
      * injection E as <- <-. split; [lia |]. now rewrite Nat.sub_diag.
      * split; [lia |]. replace (k - i)%nat with (S (k - S i)) by lia. exact Hn.
    + intros [Hle Hn]. destruct (Nat.eq_dec i k) as [<- | Hne].
      * left. rewrite Nat.sub_diag in Hn. simpl in Hn. congruence.
      * right. split; [lia |].
        replace (k - i)%nat with (S (k - S i)) in Hn by lia. exact Hn.
Qed.

Lemma indexed_from_sorted (f : nat * jsstring -> bool) (i : nat)
    (lines : list jsstring) :
  StronglySorted lt
    (map (fun p => fst p + 1)%nat (filter f (indexed_from i lines)))
  /\ Forall (fun k => i < k)%nat
       (map (fun p => fst p + 1)%nat (filter f (indexed_from i lines))).
Proof.
  revert i. unfold indexed_from.
  induction lines as [| a lines IH]; intros i; cbn [length seq combine filter].
  - simpl. split; constructor.
  - destruct (IH (S i)) as [Hs Hf].
    assert (Hf' : Forall (fun k => i < k)%nat
              (map (fun p => (fst p + 1)%nat)
                   (filter f (combine (seq (S i) (length lines)) lines)))).
    { eapply Forall_impl; [| exact Hf]. simpl. intros; lia. }
    destruct (f (i, a)); [| split; assumption].
    cbn [map fst]. split.
    + constructor; [exact Hs |]. eapply Forall_impl; [| exact Hf].
      simpl. intros; lia.
    + constructor; [lia | exact Hf'].
Qed.

(** Evaluation of the string functions on literals. *)
Ltac evalc t := let v := eval vm_compute in t in change t with v.

Ltac eval_parseFloat :=
  unfold parseFloat;
  repeat match goal with
    | |- context [longest_prefix ?s] => evalc (longest_prefix s)
    end;
  cbv beta iota; unfold StringNumericValue;
  repeat match goal with
    | |- context [MV_underflows ?m ?e] => evalc (MV_underflows m e)
    | |- context [MV_overflows ?m ?e] => evalc (MV_overflows m e)
    end;
  cbv beta iota; unfold decimal_value;
  repeat match goal with
    | |- context [(?a <=? ?b)%Z] => evalc ((a <=? b)%Z)
    | |- context [IZR (?a * ?b)%Z] => evalc ((a * b)%Z)
    | |- context [IZR (?a ^ ?b)%Z] => evalc ((a ^ b)%Z)
    end;
  cbv beta iota.

Ltac eval_valid :=
  unfold valid;
  repeat match goal with
    | |- context [String_trim ?s] => evalc (String_trim s)
    end;
  cbn [nonempty andb]; try reflexivity;
  eval_parseFloat; cbn [isNaN negb andb num_gtb num_ltb]; try reflexivity;
  first [ rewrite Rltb_true by lra | rewrite Rltb_false by lra ];
  reflexivity.

Lemma parseFloat_122 : parseFloat (js "122") = Fin 122.
Proof. eval_parseFloat. reflexivity. Qed.

Lemma parseFloat_50_5 : parseFloat (js "50.5") = Fin 50.5.
Proof. eval_parseFloat. reflexivity. Qed.

Lemma parseFloat_Infinity : parseFloat (js "Infinity") = Inf false.
Proof. eval_parseFloat. reflexivity. Qed.

(** The spec's example of leading-prefix parsing, and the two ends of the
    binary64 range. *)
Lemma parseFloat_examples :
  parseFloat (js "5 seconds") = Fin 5
  /\ parseFloat (js "abc") = NaN
  /\ parseFloat (js "1e999") = Inf false
  /\ parseFloat (js "1e-400") = Fin 0.
Proof. repeat split; eval_parseFloat; reflexivity. Qed.

Lemma example_lines :
  String_split LF example_input =
    [js "122"; js "0"; js "-5"; js "abc"; js "50.5"; []].
Proof. vm_compute. reflexivity. Qed.

Lemma example_validity :
  valid (js "122") = true /\ valid (js "0") = false
  /\ valid (js "-5") = false /\ valid (js "abc") = false
  /\ valid (js "50.5") = true /\ valid [] = false.
Proof. repeat split; eval_valid. Qed.

Lemma parseTimeData_example (toStr : number -> jsstring) :
  parseTimeData toStr example_input =
    [entry_of toStr 0 (js "122"); entry_of toStr 4 (js "50.5")].
Proof.
  rewrite parseTimeData_filter, example_lines.
  destruct example_validity as (V1 & V2 & V3 & V4 & V5 & V6).
  unfold indexed_from. cbn [length seq combine filter snd].
  rewrite V1, V2, V3, V4, V5, V6. reflexivity.
Qed.

Lemma parseTimeData_infinity_input (toStr : number -> jsstring) :
  parseTimeData toStr infinity_input =
    [entry_of toStr 0 (js "Infinity"); entry_of toStr 1 (js "Infinity")].
Proof.
  rewrite parseTimeData_filter.
  replace (String_split LF infinity_input) with [js "Infinity"; js "Infinity"]
    by (vm_compute; reflexivity).
  assert (V : valid (js "Infinity") = true) by eval_valid.
  unfold indexed_from. cbn [length seq combine filter snd].
  rewrite V. reflexivity.
Qed.

(** The sample [infinite_sample] is what the parser yields on the lines
    [Infinity], [Infinity]. *)
Lemma infinite_sample_parsed (toStr : number -> jsstring) :
  map raw (parseTimeData toStr infinity_input) = map raw infinite_sample
  /\ map lineNumber (parseTimeData toStr infinity_input)
     = map lineNumber infinite_sample.
Proof.
  rewrite parseTimeData_infinity_input. unfold entry_of. cbn [map raw lineNumber].
  replace (String_trim (js "Infinity")) with (js "Infinity")
    by (vm_compute; reflexivity).
  rewrite parseFloat_Infinity. split; reflexivity.
Qed.

Lemma valid_iff (line : jsstring) :
  valid line = true <->
  nonempty (String_trim line) = true
  /\ isNaN (parseFloat (String_trim line)) = false
  /\ num_gtb (parseFloat (String_trim line)) (Fin 0) = true.
Proof.
  unfold valid. rewrite !andb_true_iff, negb_true_iff. tauto.
Qed.

Lemma parsed_entries (toStr : number -> jsstring) (input : jsstring) (o : TimeEntry) :
  In o (parseTimeData toStr input) <->
  exists k line,
    nth_error (String_split LF input) k = Some line
    /\ valid line = true /\ o = entry_of toStr k line.
Proof.
  rewrite parseTimeData_filter, in_map_iff. split.
  - intros ([k line] & <- & Hin). apply filter_In in Hin as [Hin Hv].
    apply in_indexed_from in Hin as [_ Hn]. rewrite Nat.sub_0_r in Hn.
    exists k, line. auto.
  - intros (k & line & Hn & Hv & ->). exists (k, line). split; [reflexivity |].
    apply filter_In. split; [| exact Hv].
    apply in_indexed_from. rewrite Nat.sub_0_r. split; [lia | exact Hn].
Qed.

Lemma included_iff (toStr : number -> jsstring) (input line : jsstring) (k : nat) :
  nth_error (String_split LF input) k = Some line ->
  (included toStr input (k + 1) <-> valid line = true).
Proof.
  intros Hn. unfold included. split.
  - intros (o & Hin & Hk). apply parsed_entries in Hin as (k' & l' & Hn' & Hv & ->).
    cbn [entry_of lineNumber] in Hk.
    assert (k' = k) as -> by lia. congruence.
  - intros Hv. exists (entry_of toStr k line). split; [| reflexivity].
    apply parsed_entries. eauto.
Qed.

(** C2, with the guard of the code: a line of the input has an entry in the
    parsed sample exactly when it is non-empty after trimming and its
    leading-prefix numeric value is not NaN (finite or +Infinity) and
    strictly greater than 0; every entry carries the parsed value of its
    line and the 1-based position of that line; the entries come in
    increasing line order, each line at most once; and the input
    [122\n0\n-5\nabc\n50.5\n] yields the values [122, 50.5] from lines 1 and
    5. *)
Theorem parseTimeData_valid_lines (toStr : number -> jsstring) (input : jsstring) :
  (forall k line,
      nth_error (String_split LF input) k = Some line ->
      (included toStr input (k + 1) <->
       nonempty (String_trim line) = true
       /\ isNaN (parseFloat (String_trim line)) = false
       /\ num_gtb (parseFloat (String_trim line)) (Fin 0) = true))
  /\ (forall o,
        In o (parseTimeData toStr input) ->
        exists line,
          (1 <= lineNumber o)%nat
          /\ nth_error (String_split LF input) (lineNumber o - 1) = Some line
          /\ raw o = parseFloat (String_trim line))
  /\ StronglySorted lt (map lineNumber (parseTimeData toStr input))
  /\ map raw (parseTimeData toStr example_input) = [Fin 122; Fin 50.5]
  /\ map lineNumber (parseTimeData toStr example_input) = [1; 5]%nat.
Proof.
  split; [| split; [| split; [| split]]].
  - intros k line Hn. rewrite (@included_iff toStr input line k Hn). apply valid_iff.
  - intros o Hin. apply parsed_entries in Hin as (k & line & Hn & _ & ->).
    exists line. cbn [entry_of lineNumber raw].
    replace (k + 1 - 1)%nat with k by lia. repeat split; [lia | exact Hn].
  - rewrite parseTimeData_filter, map_map.
    apply (indexed_from_sorted (fun p => valid (snd p)) 0 (String_split LF input)).
  - rewrite parseTimeData_example. unfold entry_of. cbn [map raw].
    replace (String_trim (js "122")) with (js "122") by (vm_compute; reflexivity).
    replace (String_trim (js "50.5")) with (js "50.5") by (vm_compute; reflexivity).
    now rewrite parseFloat_122, parseFloat_50_5.
  - rewrite parseTimeData_example. reflexivity.
Qed.

Lemma parseTimeData_valid_lines_witness :
  included (fun _ => []) example_input 5.
Proof.
  apply (proj1 (parseTimeData_valid_lines (fun _ => []) example_input)
           4%nat (js "50.5")).
  - vm_compute. reflexivity.
  - apply valid_iff. apply example_validity.
Defined.

(** Counterexample to C2 as stated: on the input [Infinity\nInfinity] line 1
    has an entry although its value, +Infinity, is not finite. *)
Lemma parseTimeData_accepts_Infinity :
  (forall toStr : number -> jsstring, included toStr infinity_input 1)
  /\ isFinite (parseFloat (String_trim (js "Infinity"))) = false
  /\ ~ (forall (toStr : number -> jsstring) input k line,
          nth_error (String_split LF input) k = Some line ->
          (included toStr input (k + 1) <->
           nonempty (String_trim line) = true
           /\ isFinite (parseFloat (String_trim line)) = true
           /\ num_gtb (parseFloat (String_trim line)) (Fin 0) = true)).
Proof.
  assert (Hn : nth_error (String_split LF infinity_input) 0 = Some (js "Infinity"))
    by (vm_compute; reflexivity).
  assert (Hin : forall toStr : number -> jsstring, included toStr infinity_input 1).
  { intros toStr.
    apply (@included_iff toStr infinity_input (js "Infinity") 0%nat Hn).
    eval_valid. }
  assert (Hfin : isFinite (parseFloat (String_trim (js "Infinity"))) = false).
  { replace (String_trim (js "Infinity")) with (js "Infinity")
      by (vm_compute; reflexivity).
    now rewrite parseFloat_Infinity. }
  split; [exact Hin |]. split; [exact Hfin |].
  intros H.
  destruct (proj1 (H (fun _ => []) infinity_input 0%nat (js "Infinity") Hn)
              (Hin _)) as (_ & Hfin' & _).
  rewrite Hfin in Hfin'. discriminate.
Qed.

(** ** Samples with an infinite value *)

Lemma calculateCI_returns (sample : list TimeEntry) (cl : number) :
  (2 <= length sample)%nat ->
  exists r, calculateCI sample cl = Normal (Some r).
Proof.
  intros H. rewrite calculateCI_estimate. unfold Spec.estimate.
  destruct (Nat.ltb_spec (length sample) 2); [lia | eauto].
Qed.

Lemma Normal_Some_inj (A : Type) (a b : A) :
  Normal (Some a) = Normal (Some b) -> a = b.
Proof. intros H. now injection H. Qed.

Lemma num_mul_NaN_r (a : number) : (a * NaN)%num = NaN.
Proof. destruct a; reflexivity. Qed.

Lemma infinite_logMean : Spec.logMean infinite_sample = Inf false.
Proof.
  unfold Spec.logMean, Spec.mean. cbn. rewrite Rltb_false by lra. reflexivity.
Qed.

Lemma infinite_sem : Spec.standardErrorOfLogMean infinite_sample = NaN.
Proof.
  unfold Spec.standardErrorOfLogMean, Spec.logSD, Spec.logVariance.
  rewrite infinite_logMean. reflexivity.
Qed.

(** On the lines [Infinity], [Infinity] the estimator returns a result
    whose geometric mean is +Infinity and whose margin and bounds are NaN. *)
Lemma infinite_sample_result (cl : number) (r : Result.t) :
  calculateCI infinite_sample cl = Normal (Some r) ->
  Result.geometricMean r = Inf false
  /\ Result.margin r = NaN
  /\ Result.ciLow r = NaN
  /\ Result.ciHigh r = NaN.
Proof.
  rewrite calculateCI_estimate. unfold Spec.estimate.
  change (length infinite_sample <? 2)%nat with false. cbv iota.
  intros E. apply Normal_Some_inj in E. subst r.
  cbn [Result.geometricMean Result.margin Result.ciLow Result.ciHigh].
  unfold Spec.marginInLogSpace.
  rewrite infinite_logMean, infinite_sem, num_mul_NaN_r. repeat split.
Qed.

(** Counterexample to C6 as stated: on the lines [Infinity], [Infinity] a
    result is produced and [ciLow <= geometricMean] is false, [ciLow] being
    NaN. *)
Lemma ci_containment_fails_on_Infinity :
  (exists r,
      calculateCI infinite_sample (Fin 95) = Normal (Some r)
      /\ Result.ciLow r = NaN
      /\ Result.geometricMean r = Inf false
      /\ num_leb (Result.ciLow r) (Result.geometricMean r) = false)
  /\ ~ (forall sample cl r,
          calculateCI sample cl = Normal (Some r) ->
          num_le (Result.ciLow r) (Result.geometricMean r)
          /\ num_le (Result.geometricMean r) (Result.ciHigh r)).
Proof.
  destruct (@calculateCI_returns infinite_sample (Fin 95)) as [r Hr];
    [simpl; lia |].
  destruct (infinite_sample_result Hr) as (G & _ & L & _).
  split.
  - exists r. rewrite L, G. auto.
  - intros H. destruct (H _ _ _ Hr) as [Hlow _].
    rewrite L in Hlow. exact (num_le_not_NaN_l Hlow).
Qed.

(** Counterexample to C8 as stated: on the lines [Infinity], [Infinity] the
    widths are NaN at every level and [width <= width] is false. *)
Lemma ci_width_not_monotone_on_Infinity :
  (exists r80 r90,
      calculateCI infinite_sample (Fin 80) = Normal (Some r80)
      /\ calculateCI infinite_sample (Fin 90) = Normal (Some r90)
      /\ width r80 = NaN
      /\ num_leb (width r80) (width r90) = false)
  /\ ~ (forall sample r80 r90 r95,
          calculateCI sample (Fin 80) = Normal (Some r80) ->
          calculateCI sample (Fin 90) = Normal (Some r90) ->
          calculateCI sample (Fin 95) = Normal (Some r95) ->
          num_le (width r80) (width r90) /\ num_le (width r90) (width r95)).
Proof.
  destruct (@calculateCI_returns infinite_sample (Fin 80)) as [r80 H80];
    [simpl; lia |].
  destruct (@calculateCI_returns infinite_sample (Fin 90)) as [r90 H90];
    [simpl; lia |].
  destruct (@calculateCI_returns infinite_sample (Fin 95)) as [r95 H95];
    [simpl; lia |].
  destruct (infinite_sample_result H80) as (_ & _ & L & U).
  assert (W : width r80 = NaN) by (unfold width; now rewrite L, U).
  split.
  - exists r80, r90. rewrite W. auto.
  - intros H. destruct (H _ _ _ _ H80 H90 H95) as [Hw _].
    rewrite W in Hw. exact (num_le_not_NaN_l Hw).
Qed.

(** Counterexample to the last part of C10 as stated: on the lines
    [Infinity], [Infinity] a result is produced whose margin is NaN, so that
    [0 <= margin] is false. *)
Lemma margin_NaN_on_Infinity :
  (exists r,
      calculateCI infinite_sample (Fin 95) = Normal (Some r)
      /\ Result.margin r = NaN
      /\ num_leb (Fin 0) (Result.margin r) = false)
  /\ ~ (forall sample cl r,
          calculateCI sample cl = Normal (Some r) ->
          num_le (Fin 0) (Result.margin r)).
Proof.
  destruct (@calculateCI_returns infinite_sample (Fin 95)) as [r Hr];
    [simpl; lia |].
  destruct (infinite_sample_result Hr) as (_ & E & _).
  split.
  - exists r. rewrite E. auto.
  - intros H. specialize (H _ _ _ Hr).
    rewrite E in H. exact (num_le_not_NaN_r H).
Qed.

(** ** The width of the interval *)

(** The standard error of any sample of at least two values is NaN,
    +Infinity or a non-negative real. *)
Lemma sem_range (sample : list TimeEntry) :
  (2 <= length sample)%nat ->
  Spec.standardErrorOfLogMean sample = NaN
  \/ Spec.standardErrorOfLogMean sample = Inf false
  \/ exists s, Spec.standardErrorOfLogMean sample = Fin s /\ 0 <= s.
Proof.
  intros Hn. unfold Spec.standardErrorOfLogMean, Spec.logSD, of_nat.
  pose proof (INR_length_ge_2 sample Hn) as Hlen.
  rewrite (Math_sqrt_Fin (x := INR (length sample))) by lra.
  assert (Hq : 0 < sqrt (INR (length sample))) by (apply sqrt_lt_R0; lra).
  destruct (Math_sqrt_range (Spec.logVariance sample)) as [-> | [-> | (s & -> & Hs)]].
  - left. reflexivity.
  - right; left. cbn [num_div]. rewrite Rltb_false by lra. reflexivity.
  - right; right. rewrite num_div_Fin by lra. eexists. split; [reflexivity |].
    apply Rmult_le_pos; [lra |]. apply Rlt_le, Rinv_0_lt_compat, Hq.
Qed.

(** The width [exp (m + t s) - exp (m - t s)], when it is a Number, does not
    decrease with [t]. *)
Lemma width_monotone (m s : number) (a b : R) :
  0 < a -> a <= b ->
  s = NaN \/ s = Inf false \/ (exists x, s = Fin x /\ 0 <= x) ->
  isNaN (Math_exp (m + Fin a * s) - Math_exp (m - Fin a * s))%num = false ->
  isNaN (Math_exp (m + Fin b * s) - Math_exp (m - Fin b * s))%num = false ->
  num_le (Math_exp (m + Fin a * s) - Math_exp (m - Fin a * s))%num
         (Math_exp (m + Fin b * s) - Math_exp (m - Fin b * s))%num.
Proof.
  intros Ha Hab Hs Na Nb.
  destruct Hs as [-> | [-> | (x & -> & Hx)]].
  - rewrite num_mul_NaN_r in Na. destruct m; discriminate Na.
  - cbn [num_mul] in *. rewrite !Reqb_false in * by lra.
    rewrite !Rltb_false in * by lra. cbn [xorb] in *.
    destruct m as [| [] | y]; cbn in *; try discriminate; reflexivity.
  - cbn [num_mul] in *.
    destruct m as [| [] | y]; cbn in *; try discriminate.
    + apply num_le_Fin. lra.
    + apply num_le_Fin.
      assert (a * x <= b * x) by (apply Rmult_le_compat_r; lra).
      pose proof (@exp_le (y + a * x) (y + b * x)).
      pose proof (@exp_le (y - b * x) (y - a * x)).
      lra.
Qed.

(** The width of a result in terms of the log-mean, the standard error and
    the critical value. *)
Lemma estimate_width (sample : list TimeEntry) (cl : number) (r : Result.t) (t : R) :
  calculateCI sample cl = Normal (Some r) ->
  getTCritical (Z.of_nat (length sample) - 1) cl = Normal (Fin t) ->
  width r
  = (Math_exp (Spec.logMean sample + Fin t * Spec.standardErrorOfLogMean sample)
     - Math_exp (Spec.logMean sample
                 - Fin t * Spec.standardErrorOfLogMean sample))%num.
Proof.
  intros Hr Ht. pose proof (calculateCI_Some_length _ _ Hr) as Hn.
  rewrite calculateCI_estimate in Hr. unfold Spec.estimate in Hr.
  destruct (Nat.ltb_spec (length sample) 2); [lia |].
  apply Normal_Some_inj in Hr. subst r. unfold width.
  cbn [Result.ciLow Result.ciHigh].
  unfold Spec.marginInLogSpace, Spec.degreesOfFreedom.
  rewrite getTCritical_spec in Ht by lia. injection Ht as ->. reflexivity.
Qed.

(** C8, where the widths are Numbers: for a fixed sample, when the width
    [ciHigh - ciLow] is not NaN at the levels 80, 90 and 95, it does not
    decrease when the confidence level goes from 80 to 90 and from 90 to
    95.  The width is NaN when both bounds are NaN or both are +Infinity. *)
Theorem ci_width_monotone
    (sample : list TimeEntry) (r80 r90 r95 : Result.t) :
  calculateCI sample (Fin 80) = Normal (Some r80) ->
  calculateCI sample (Fin 90) = Normal (Some r90) ->
  calculateCI sample (Fin 95) = Normal (Some r95) ->
  isNaN (width r80) = false ->
  isNaN (width r90) = false ->
  isNaN (width r95) = false ->
  num_le (width r80) (width r90) /\ num_le (width r90) (width r95).
Proof.
  intros H80 H90 H95. pose proof (calculateCI_Some_length _ _ H80) as Hn.
  assert (Hdf : (1 <= Z.of_nat (length sample) - 1)%Z) by lia.
  destruct (getTCritical_levels Hdf) as (a & b & c & Ha & Hab & Hbc & Ea & Eb & Ec).
  rewrite (@estimate_width _ _ _ _ H80 Ea), (@estimate_width _ _ _ _ H90 Eb),
    (@estimate_width _ _ _ _ H95 Ec).
  intros N80 N90 N95. pose proof (sem_range sample Hn) as Hs.
  split; apply width_monotone; auto; lra.
Qed.

(** ** The estimator over the store *)

Section StoreRuns.

Variable num : Type.
Variable ops : Store.Ops num.

Implicit Types (h : Store.heap num) (a p r : Store.ref).

Lemma bindM_run (A B : Type) (m : Store.M num A) (k : A -> Store.M num B)
    h h' (x : A) :
  m h = Normal (x, h') -> Store.bindM m k h = k x h'.
Proof. intros H. unfold Store.bindM. now rewrite H. Qed.

Lemma run_read h r (o : Store.object num) :
  nth_error h r = Some o -> Store.read r h = Normal (o, h).
Proof. intros H. unfold Store.read. now rewrite H. Qed.

Lemma nth_error_old h (t : Store.heap num) r (o : Store.object num) :
  nth_error h r = Some o -> nth_error (h ++ t) r = Some o.
Proof.
  intros H. rewrite nth_error_app1; [exact H |].
  apply nth_error_Some. congruence.
Qed.

Lemma nth_error_new h (t : Store.heap num) (i : nat) :
  nth_error (h ++ t) (length h + i) = nth_error t i.
Proof.
  rewrite nth_error_app2 by lia. f_equal. lia.
Qed.

Lemma nth_error_fresh h (o : Store.object num) (t : Store.heap num) :
  nth_error (h ++ o :: t) (length h) = Some o.
Proof.
  pose proof (nth_error_new h (o :: t) 0) as H.
  now rewrite Nat.add_0_r in H.
Qed.

Lemma replace_fresh h (o o' : Store.object num) (t : Store.heap num) :
  Store.replace (length h) o' (h ++ o :: t) = h ++ o' :: t.
Proof. induction h as [| x h IH]; cbn; [reflexivity | now rewrite IH]. Qed.

(** A push on the newest array of the store. *)
Lemma run_push h (elements : list num) (v : num) :
  Store.numbers_push (length h) v (h ++ [Store.NumberArray elements])
  = Normal (tt, h ++ [Store.NumberArray (elements ++ [v])]).
Proof.
  unfold Store.numbers_push.
  erewrite bindM_run by (apply run_read, nth_error_fresh).
  unfold Store.write. rewrite length_app, replace_fresh.
  destruct (Nat.ltb_spec (length h) (length h + length [Store.NumberArray elements]));
    [reflexivity | simpl in *; lia].
Qed.

(** *** The store only grows, except where a program pushes *)

Lemma preserved_refl h : Store.preserved h h.
Proof. intros r o H. exact H. Qed.

Lemma preserved_app h (t : Store.heap num) : Store.preserved h (h ++ t).
Proof. intros r o H. now apply nth_error_old. Qed.

Lemma preserved_trans (h1 h2 h3 : Store.heap num) :
  Store.preserved h1 h2 -> Store.preserved h2 h3 -> Store.preserved h1 h3.
Proof. unfold Store.preserved. auto. Qed.

(** A push on an array that was there before the call is seen by everyone
    who holds the array: the relation [preserved] does not hold of it. *)
Lemma push_not_preserved h a (elements : list num) (v : num) :
  nth_error h a = Some (Store.NumberArray elements) ->
  exists h',
    Store.numbers_push a v h = Normal (tt, h')
    /\ nth_error h' a = Some (Store.NumberArray (elements ++ [v]))
    /\ ~ Store.preserved h h'.
Proof.
  intros Ha.
  assert (Hlt : (a < length h)%nat) by (apply nth_error_Some; congruence).
  destruct (nth_error_split h a Ha) as (h1 & h2 & -> & <-).
  exists (h1 ++ Store.NumberArray (elements ++ [v]) :: h2).
  assert (E : Store.numbers_push (length h1) v (h1 ++ Store.NumberArray elements :: h2)
              = Normal (tt, h1 ++ Store.NumberArray (elements ++ [v]) :: h2)).
  { unfold Store.numbers_push. erewrite bindM_run by (apply run_read, Ha).
    unfold Store.write. rewrite replace_fresh.
    destruct (Nat.ltb_spec (length h1)
                (length (h1 ++ Store.NumberArray elements :: h2)));
      [reflexivity | lia]. }
  split; [exact E |]. split; [apply nth_error_fresh |].
  intros P. specialize (P _ _ Ha). rewrite nth_error_fresh in P.
  injection P as P. apply (f_equal (@length num)) in P.
  rewrite length_app in P. simpl in P. lia.
Qed.

(** *** The loops *)

Lemma nth_error_middle (A : Type) (before rest : list A) (x : A) :
  nth_error (before ++ x :: rest) (length before) = Some x.
Proof. rewrite nth_error_app2 by lia. now rewrite Nat.sub_diag. Qed.

Lemma run_entries_get h a (elements : list Store.ref) (k : nat) :
  nth_error h a = Some (Store.EntryArray elements) ->
  Store.entries_get a k h = Normal (nth_error elements k, h).
Proof.
  intros Ha. unfold Store.entries_get.
  erewrite bindM_run by (apply run_read, Ha). reflexivity.
Qed.

Lemma run_numbers_get h a (elements : list num) (k : nat) :
  nth_error h a = Some (Store.NumberArray elements) ->
  Store.numbers_get a k h = Normal (nth_error elements k, h).
Proof.
  intros Ha. unfold Store.numbers_get.
  erewrite bindM_run by (apply run_read, Ha). reflexivity.
Qed.

Lemma run_get_raw h t (x : num) (f : jsstring) (l : nat) :
  nth_error h t = Some (Store.Entry x f l) ->
  Store.get_raw t h = Normal (x, h).
Proof.
  intros Ht. unfold Store.get_raw.
  erewrite bindM_run by (apply run_read, Ht). reflexivity.
Qed.

(** The loop of [parsedTimes.map(t => t.raw)] from index [length done] on:
    every step reads the source array and an entry, both untouched, and
    pushes on the result array, the newest object. *)
Lemma run_entries_loop h a (before rest : list Store.ref) (xs done : list num) :
  nth_error h a = Some (Store.EntryArray (before ++ rest)) ->
  Forall2 (fun t x => exists f l, nth_error h t = Some (Store.Entry x f l))
          rest xs ->
  Store.iterate
    (fun _ k =>
       Store.bindM (Store.entries_get a k) (fun e =>
       match e with
       | Some t =>
           Store.bindM (Store.get_raw t) (fun v =>
           Store.numbers_push (length h) v)
       | None => Store.ret tt
       end))
    (seq (length before) (length rest)) tt
    (h ++ [Store.NumberArray done])
  = Normal (tt, h ++ [Store.NumberArray (done ++ xs)]).
Proof.
  intros Ha Hrest. revert before done Ha.
  induction Hrest as [| t x rest xs (f & l & Ht) _ IH]; intros before done Ha.
  - cbn. now rewrite app_nil_r.
  - cbn [length seq Store.iterate].
    erewrite bindM_run.
    2:{ erewrite bindM_run by (apply run_entries_get, nth_error_old, Ha).
        rewrite nth_error_middle.
        erewrite bindM_run by (eapply run_get_raw, nth_error_old, Ht).
        apply run_push. }
    replace (S (length before)) with (length (before ++ [t]))
      by (rewrite length_app; simpl; lia).
    rewrite IH by (now rewrite <- app_assoc).
    now rewrite <- app_assoc.
Qed.

Lemma run_entries_map h a (raws : list num) :
  Store.sample_at h a raws ->
  Store.entries_map (@Store.get_raw num) a h
  = Normal (length h, h ++ [Store.NumberArray raws]).
Proof.
  intros (elements & Ha & Hall). unfold Store.entries_map.
  erewrite bindM_run.
  2:{ unfold Store.entries_length.
      erewrite bindM_run by (apply run_read, Ha). reflexivity. }
  erewrite bindM_run by reflexivity.
  erewrite bindM_run by (apply (@run_entries_loop h a [] elements raws []);
                         assumption).
  reflexivity.
Qed.

(** The loop of [times.map(f)] for a callback that only computes. *)
Lemma run_numbers_loop (f : num -> num) h a (before rest done : list num) :
  nth_error h a = Some (Store.NumberArray (before ++ rest)) ->
  Store.iterate
    (fun _ k =>
       Store.bindM (Store.numbers_get a k) (fun e =>
       match e with
       | Some t =>
           Store.bindM (Store.ret (f t)) (fun v =>
           Store.numbers_push (length h) v)
       | None => Store.ret tt
       end))
    (seq (length before) (length rest)) tt
    (h ++ [Store.NumberArray done])
  = Normal (tt, h ++ [Store.NumberArray (done ++ map f rest)]).
Proof.
  revert before done.
  induction rest as [| t rest IH]; intros before done Ha.
  - cbn. now rewrite app_nil_r.
  - cbn [length seq Store.iterate map].
    erewrite bindM_run.
    2:{ erewrite bindM_run by (apply run_numbers_get, nth_error_old, Ha).
        rewrite nth_error_middle.
        erewrite bindM_run by reflexivity.
        apply run_push. }
    replace (S (length before)) with (length (before ++ [t]))
      by (rewrite length_app; simpl; lia).
    rewrite IH by (now rewrite <- app_assoc).
    now rewrite <- app_assoc.
Qed.

Lemma run_numbers_length h a (elements : list num) :
  nth_error h a = Some (Store.NumberArray elements) ->
  Store.numbers_length a h = Normal (length elements, h).
Proof.
  intros Ha. unfold Store.numbers_length.
  erewrite bindM_run by (apply run_read, Ha). reflexivity.
Qed.

Lemma run_numbers_map (f : num -> num) h a (elements : list num) :
  nth_error h a = Some (Store.NumberArray elements) ->
  Store.numbers_map (fun t => Store.ret (f t)) a h
  = Normal (length h, h ++ [Store.NumberArray (map f elements)]).
Proof.
  intros Ha. unfold Store.numbers_map.
  erewrite bindM_run by (apply run_numbers_length, Ha).
  erewrite bindM_run by reflexivity.
  erewrite bindM_run by (apply (@run_numbers_loop f h a [] elements []); exact Ha).
  reflexivity.
Qed.

(** The loop of [reduce] for a callback that only computes: nothing is
    written. *)
Lemma run_reduce_loop (f : num -> num -> num) h a (before rest : list num)
    (acc : num) :
  nth_error h a = Some (Store.NumberArray (before ++ rest)) ->
  Store.iterate
    (fun acc k =>
       Store.bindM (Store.numbers_get a k) (fun e =>
       match e with
       | Some v => Store.ret (f acc v)
       | None => Store.ret acc
       end))
    (seq (length before) (length rest)) acc h
  = Normal (fold_left f rest acc, h).
Proof.
  revert before acc.
  induction rest as [| v rest IH]; intros before acc Ha; [reflexivity |].
  cbn [length seq Store.iterate fold_left].
  erewrite bindM_run.
  2:{ erewrite bindM_run by (apply run_numbers_get, Ha).
      rewrite nth_error_middle. reflexivity. }
  replace (S (length before)) with (length (before ++ [v]))
    by (rewrite length_app; simpl; lia).
  apply IH. now rewrite <- app_assoc.
Qed.

Lemma run_numbers_reduce (f : num -> num -> num) (init : num) h a
    (elements : list num) :
  nth_error h a = Some (Store.NumberArray elements) ->
  Store.numbers_reduce (fun acc v => Store.ret (f acc v)) init a h
  = Normal (fold_left f elements init, h).
Proof.
  intros Ha. unfold Store.numbers_reduce.
  erewrite bindM_run by (apply run_numbers_length, Ha).
  apply (@run_reduce_loop f h a [] elements init Ha).
Qed.


(** *** [getTCritical] over the store *)

Lemma run_alloc_all (objects : list (Store.object num)) h :
  Store.alloc_all objects h
  = Normal (seq (length h) (length objects), h ++ objects).
Proof.
  revert h. induction objects as [| o objects IH]; intros h.
  - cbn. now rewrite app_nil_r.
  - cbn [Store.alloc_all length seq].
    erewrite bindM_run by reflexivity.
    erewrite bindM_run by apply IH.
    unfold Store.ret. rewrite length_app, <- app_assoc. cbn [length app].
    now rewrite Nat.add_1_r.
Qed.

(** The row of a key of the table is the object allocated for it. *)
Lemma lookup_row_seq (keys : list Z) (key : Z) :
  In key keys ->
  exists i,
    nth_error keys i = Some key
    /\ forall b,
         Store.lookup_row key (combine keys (seq b (length keys)))
         = Some (b + i)%nat.
Proof.
  induction keys as [| k keys IH]; intros Hin; [contradiction |].
  destruct (Z.eqb_spec key k) as [-> | Hne].
  - exists 0%nat. split; [reflexivity |]. intros b.
    cbn [length seq combine Store.lookup_row].
    now rewrite Z.eqb_refl, Nat.add_0_r.
  - destruct Hin as [-> | Hin]; [contradiction |].
    destruct (IH Hin) as (i & Hi & Hl).
    exists (S i). split; [exact Hi |]. intros b.
    cbn [length seq combine Store.lookup_row].
    destruct (Z.eqb_spec key k); [contradiction |].
    rewrite Hl. f_equal. lia.
Qed.

(** For [df >= 1] a call allocates the table, reads the row of the bucket
    and its entry for alpha, and writes nothing; the value it returns is
    fixed by [df] and the level. *)
Lemma run_getTCritical (df : Z) :
  (1 <= df)%Z ->
  exists abc,
    In (df_key df, abc) Store.tLiterals
    /\ forall (cl : num) h,
         exists fresh,
           Store.getTCritical ops df cl h
           = Normal
               (Store.or_else ops
                  (Store.lookup_cell ops
                     (Store.div ops
                        (Store.sub ops (Store.literal ops 100) cl)
                        (Store.literal ops 100))
                     (Store.row_cells ops abc))
                  (Store.literal ops 2.042),
                h ++ fresh).
Proof.
  intros Hdf. pose proof (df_key_cases Hdf) as Hk.
  change [1; 2; 3; 4; 5; 6; 7; 8; 9; 10; 15; 20; 25; 30]%Z
    with (map fst Store.tLiterals) in Hk.
  assert (Hrow : exists i abc,
             nth_error Store.tLiterals i = Some (df_key df, abc)
             /\ forall b,
                  Store.lookup_row (df_key df)
                    (combine (map fst Store.tLiterals)
                       (seq b (length Store.tLiterals)))
                  = Some (b + i)%nat).
  { destruct (lookup_row_seq _ _ Hk) as (i & Hi & Hl).
    rewrite nth_error_map in Hi.
    destruct (nth_error Store.tLiterals i) as [[k abc] |] eqn:E;
      [| discriminate].
    cbn in Hi. injection Hi as Hi. subst k.
    exists i, abc. split; [exact E |]. intros b.
    rewrite <- (length_map fst Store.tLiterals). apply Hl. }
  destruct Hrow as (i & abc & Hi & Hl).
  exists abc. split; [exact (nth_error_In _ _ Hi) |].
  intros cl h. unfold Store.getTCritical.
  erewrite bindM_run by apply run_alloc_all.
  erewrite bindM_run by reflexivity.
  rewrite length_map, length_app, length_map.
  erewrite bindM_run.
  2:{ unfold Store.table_get.
      erewrite bindM_run.
      2:{ apply run_read.
          rewrite <- (length_map (fun kr => Store.Row (Store.row_cells ops (snd kr)))
                                 Store.tLiterals).
          rewrite <- length_app. apply nth_error_fresh. }
      cbv beta iota. unfold Store.ret. rewrite Hl. reflexivity. }
  cbv beta iota.
  erewrite bindM_run.
  2:{ unfold Store.row_get.
      erewrite bindM_run.
      2:{ apply run_read. rewrite <- app_assoc, nth_error_new.
          apply nth_error_old. rewrite nth_error_map, Hi. reflexivity. }
      reflexivity. }
  eexists. unfold Store.ret. rewrite <- app_assoc. reflexivity.
Qed.


(** *** [calculateCI] over the store *)

Lemma sample_length h p (raws : list num) :
  Store.sample_at h p raws ->
  Store.entries_length p h = Normal (length raws, h).
Proof.
  intros (elements & Hp & Hall). unfold Store.entries_length.
  erewrite bindM_run by (apply run_read, Hp).
  cbv beta iota. unfold Store.ret. do 2 f_equal. exact (Forall2_length Hall).
Qed.

Lemma sample_preserved h h' p (raws : list num) :
  Store.preserved h h' -> Store.sample_at h p raws -> Store.sample_at h' p raws.
Proof.
  intros P (elements & Hp & Hall). exists elements. split; [now apply P |].
  eapply Forall2_impl; [| exact Hall].
  intros t x (f & l & Ht). exists f, l. now apply P.
Qed.

(** A call on a sample of fewer than two values returns [null] and leaves
    the store as it is. *)
Lemma run_calculateCI_null h p (raws : list num) (cl : num) :
  Store.sample_at h p raws -> (length raws < 2)%nat ->
  Store.calculateCI ops p cl h = Normal (None, h).
Proof.
  intros Hs Hn. unfold Store.calculateCI.
  erewrite bindM_run by (apply sample_length, Hs).
  destruct (Nat.ltb_spec (length raws) 2); [reflexivity | lia].
Qed.

(** A call on a sample of at least two values reads the sample, allocates
    the arrays [times] and [logTimes], the table and the result object,
    pushes on its own two arrays only, and returns the reference of the
    result object, the newest object of the store.  The fields of the
    result are fixed by the values of the sample and the level. *)
Lemma run_calculateCI (raws : list num) (cl : num) :
  (2 <= length raws)%nat ->
  exists abc,
    In (df_key (Z.of_nat (length raws) - 1), abc) Store.tLiterals
    /\ forall h p,
         Store.sample_at h p raws ->
         exists fresh,
           Store.calculateCI ops p cl h
           = Normal
               (Some (length (h ++ fresh)),
                (h ++ fresh)
                ++ [Store.ResultObject
                      (let n := length raws in
                       let logTimes := map (Store.math_log ops) raws in
                       let logMean :=
                         Store.div ops
                           (fold_left (Store.add ops) logTimes
                                      (Store.literal ops 0))
                           (Store.of_length ops n) in
                       let logVariance :=
                         Store.div ops
                           (fold_left
                              (fun sum val =>
                                 Store.add ops sum
                                   (Store.math_pow ops
                                      (Store.sub ops val logMean) 2))
                              logTimes (Store.literal ops 0))
                           (Store.sub ops (Store.of_length ops n)
                                      (Store.literal ops 1)) in
                       let logSD := Store.math_sqrt ops logVariance in
                       let sem :=
                         Store.div ops logSD
                           (Store.math_sqrt ops (Store.of_length ops n)) in
                       let tCritical :=
                         Store.or_else ops
                           (Store.lookup_cell ops
                              (Store.div ops
                                 (Store.sub ops (Store.literal ops 100) cl)
                                 (Store.literal ops 100))
                              (Store.row_cells ops abc))
                           (Store.literal ops 2.042) in
                       let margin := Store.mul ops tCritical sem in
                       {| Store.n := n;
                          Store.geometricMean := Store.math_exp ops logMean;
                          Store.arithmeticMean :=
                            Store.div ops
                              (fold_left (Store.add ops) raws
                                         (Store.literal ops 0))
                              (Store.of_length ops n);
                          Store.logMean := logMean;
                          Store.logSD := logSD;
                          Store.sem := sem;
                          Store.df := (Z.of_nat n - 1)%Z;
                          Store.tCritical := tCritical;
                          Store.margin := margin;
                          Store.ciLow :=
                            Store.math_exp ops (Store.sub ops logMean margin);
                          Store.ciHigh :=
                            Store.math_exp ops (Store.add ops logMean margin);
                          Store.confidenceLevel := cl |})]).
Proof.
  intros Hn.
  destruct (@run_getTCritical (Z.of_nat (length raws) - 1)) as (abc & Hin & Ht);
    [lia |].
  exists abc. split; [exact Hin |]. intros h p Hs.
  unfold Store.calculateCI.
  erewrite bindM_run by (apply sample_length, Hs).
  destruct (Nat.ltb_spec (length raws) 2); [lia |].
  erewrite bindM_run by (apply run_entries_map, Hs).
  set (h1 := h ++ [Store.NumberArray raws]).
  assert (Ht1 : nth_error h1 (length h) = Some (Store.NumberArray raws))
    by apply nth_error_fresh.
  erewrite bindM_run by (apply run_numbers_length, Ht1).
  erewrite bindM_run by (apply run_numbers_map, Ht1).
  set (h2 := h1 ++ [Store.NumberArray (map (Store.math_log ops) raws)]).
  assert (Hl2 : nth_error h2 (length h1)
                = Some (Store.NumberArray (map (Store.math_log ops) raws)))
    by apply nth_error_fresh.
  erewrite bindM_run by (apply run_numbers_reduce, Hl2).
  erewrite bindM_run by (apply run_numbers_reduce, Hl2).
  destruct (Ht cl h2) as (fresh & Hrun).
  erewrite bindM_run by exact Hrun.
  erewrite bindM_run
    by (apply run_numbers_reduce, nth_error_old, nth_error_old, Ht1).
  erewrite bindM_run by reflexivity.
  exists ([Store.NumberArray raws]
          ++ [Store.NumberArray (map (Store.math_log ops) raws)] ++ fresh).
  unfold Store.ret, h2, h1. rewrite !app_assoc. reflexivity.
Qed.

End StoreRuns.

(** *** The store rendering and the pure one *)

(** The table of the store rendering is the table [tValues]. *)
Lemma tValues_literals :
  tValues
  = map (fun kr => (fst kr, Store.row_cells number_ops (snd kr)))
        Store.tLiterals.
Proof. reflexivity. Qed.

Lemma getTCritical_store (df : Z) (abc : R * R * R) (cl : number) :
  In (df_key df, abc) Store.tLiterals ->
  getTCritical df cl
  = Normal
      (Store.or_else number_ops
         (Store.lookup_cell number_ops
            (Store.div number_ops
               (Store.sub number_ops (Store.literal number_ops 100) cl)
               (Store.literal number_ops 100))
            (Store.row_cells number_ops abc))
         (Store.literal number_ops 2.042)).
Proof.
  intros Hin. unfold getTCritical.
  generalize dependent (df_key df). intros k Hin. simpl in Hin.
  repeat (destruct Hin as [Hin | Hin];
          [injection Hin as <- <-; reflexivity |]).
  contradiction.
Qed.

(** Over the Numbers of this development a call on a store that holds the
    sample returns what the pure [calculateCI] returns for the values of the
    sample: [null] for [null], and a reference to an object with the fields
    of the pure result. *)
Lemma Store_calculateCI_refines (sample : list TimeEntry) (cl : number)
    (h : Store.heap number) (p : Store.ref) :
  Store.sample_at h p (map raw sample) ->
  exists r h',
    Store.calculateCI number_ops p cl h = Normal (r, h')
    /\ match r with
       | None => calculateCI sample cl = Normal None
       | Some a =>
           exists fields,
             nth_error h' a = Some (Store.ResultObject fields)
             /\ calculateCI sample cl = Normal (Some (Result_of fields))
       end.
Proof.
  intros Hs. destruct (le_lt_dec 2 (length sample)) as [Hn | Hn].
  - destruct (@run_calculateCI number number_ops (map raw sample) cl)
      as (abc & Hin & Hrun); [now rewrite length_map |].
    destruct (Hrun h p Hs) as (fresh & E).
    eexists _, _. split; [exact E |].
    eexists. split; [apply nth_error_fresh |].
    unfold calculateCI. destruct (Nat.ltb_spec (length sample) 2); [lia |].
    rewrite length_map in Hin.
    rewrite !length_map, (getTCritical_store _ _ Hin), of_Z_pred.
    reflexivity.
  - exists None, h. split.
    + apply run_calculateCI_null with (raws := map raw sample);
        [exact Hs | now rewrite length_map].
    + unfold calculateCI.
      destruct (Nat.ltb_spec (length sample) 2); [reflexivity | lia].
Qed.

(** C9: the estimator has no effect on what it is given and its result is
    fixed by the values of the sample and the level.  For every
    representation of Numbers (64-bit patterns included) there is one
    outcome [res], [null] exactly for fewer than two values, such that in
    every store that holds the sample, at whatever address: a call returns
    normally; every object that was in the store, the array of the sample
    and its entries included, is unchanged, although the call pushes on the
    arrays it allocates; a second call with the same arguments returns
    normally as well; both calls return [null], or references to two
    distinct objects that were not in the store before and hold the same
    fields [res]. *)
Theorem calculateCI_pure_deterministic (num : Type) (ops : Store.Ops num)
    (raws : list num) (cl : num) :
  exists res : option (Store.result num),
    (res = None <-> (length raws < 2)%nat)
    /\ forall (h : Store.heap num) (p : Store.ref),
         Store.sample_at h p raws ->
         exists r1 h1 r2 h2,
           Store.calculateCI ops p cl h = Normal (r1, h1)
           /\ Store.calculateCI ops p cl h1 = Normal (r2, h2)
           /\ Store.preserved h h1
           /\ Store.preserved h1 h2
           /\ Store.sample_at h2 p raws
           /\ Store.result_at h2 r1 res
           /\ Store.result_at h2 r2 res
           /\ (forall a, r1 = Some a -> nth_error h a = None /\ r2 <> Some a).
Proof.
  destruct (le_lt_dec 2 (length raws)) as [Hn | Hn].
  - destruct (@run_calculateCI num ops raws cl Hn) as (abc & _ & Hrun).
    eexists (Some _). split; [split; [discriminate | lia] |].
    intros h p Hs.
    destruct (Hrun h p Hs) as (fresh & E1).
    match type of E1 with _ = Normal (_, ?k) => set (h1 := k) in * end.
    assert (P1 : Store.preserved h h1)
      by (unfold h1; rewrite <- app_assoc; apply preserved_app).
    destruct (Hrun h1 p (sample_preserved P1 Hs)) as (fresh' & E2).
    match type of E2 with _ = Normal (_, ?k) => set (h2 := k) in * end.
    assert (P2 : Store.preserved h1 h2)
      by (unfold h2; rewrite <- app_assoc; apply preserved_app).
    exists (Some (length (h ++ fresh))), h1, (Some (length (h1 ++ fresh'))), h2.
    split; [exact E1 |]. split; [exact E2 |]. split; [exact P1 |].
    split; [exact P2 |].
    split; [exact (sample_preserved P2 (sample_preserved P1 Hs)) |].
    split; [apply P2; unfold h1; apply nth_error_fresh |].
    split; [unfold h2; apply nth_error_fresh |].
    intros a Ha. injection Ha as <-. split.
    + apply nth_error_None. rewrite length_app. lia.
    + intros E. injection E as E. unfold h1 in E.
      rewrite !length_app in E. simpl in E. lia.
  - exists None. split; [tauto |]. intros h p Hs.
    exists None, h, None, h.
    rewrite (@run_calculateCI_null num ops h p raws cl Hs Hn).
    repeat split; try exact I; try apply preserved_refl; try assumption;
      discriminate.
Qed.

Lemma example_sample_at :
  Store.sample_at example_heap 5%nat (map raw example_sample).
Proof.
  exists [0; 1; 2; 3; 4]%nat. split; [reflexivity |].
  repeat constructor; eexists _, _; reflexivity.
Qed.

Lemma calculateCI_pure_deterministic_witness :
  exists r1 h1 r2 h2 fields,
    Store.calculateCI number_ops 5%nat (Fin 95) example_heap
    = Normal (Some r1, h1)
    /\ Store.calculateCI number_ops 5%nat (Fin 95) h1 = Normal (Some r2, h2)
    /\ r1 <> r2
    /\ nth_error h2 r1 = Some (Store.ResultObject fields)
    /\ nth_error h2 r2 = Some (Store.ResultObject fields)
    /\ nth_error h2 5%nat = nth_error example_heap 5%nat.
Proof.
  destruct (calculateCI_pure_deterministic number_ops
              (map raw example_sample) (Fin 95))
    as (res & Hnull & Hcalls).
  destruct (Hcalls example_heap 5%nat example_sample_at)
    as (r1 & h1 & r2 & h2 & E1 & E2 & P1 & P2 & _ & R1 & R2 & F).
  destruct res as [fields |].
  - destruct r1 as [a1 |]; [| contradiction].
    destruct r2 as [a2 |]; [| contradiction].
    exists a1, h1, a2, h2, fields.
    split; [exact E1 |]. split; [exact E2 |].
    split; [intros ->; now destruct (F a2 eq_refl) |].
    split; [exact R1 |]. split; [exact R2 |].
    apply P2, P1. reflexivity.
  - exfalso. assert (H : (length (map raw example_sample) < 2)%nat)
      by (now apply Hnull).
    simpl in H. lia.
Defined.

(** ** The end-to-end example: 122, 293, 203, 156, 89 at level 95 *)

Lemma example_finite_positive : finite_positive example_sample example_values.
Proof. split; [reflexivity | repeat constructor; lra]. Qed.

Lemma example_sample_result (r : Result.t) :
  calculateCI example_sample (Fin 95) = Normal (Some r) ->
  Result.n r = 5%nat
  /\ Result.df r = 4%Z
  /\ Result.tCritical r = Fin 2.776
  /\ Result.arithmeticMean r = Fin 172.6
  /\ Result.geometricMean r = Fin (exp (Rlogmean example_values)).
Proof.
  intros Hr. pose proof (calculateCI_Some_length _ _ Hr) as Hn.
  destruct (fp_estimate example_finite_positive Hn _ Hr)
    as (t & _ & Ht & -> & _ & _ & _ & -> & _ & _ & ->).
  change (Z.of_nat (length example_sample) - 1)%Z with 4%Z in Ht.
  erewrite getTCritical_at in Ht by (try reflexivity; lra).
  rewrite !Reqb_false, Reqb_true in Ht by lra.
  rewrite calculateCI_estimate in Hr. unfold Spec.estimate in Hr.
  change (length example_sample <? 2)%nat with false in Hr. cbv iota in Hr.
  apply Normal_Some_inj in Hr. rewrite <- Hr.
  cbn [Result.n Result.df]. repeat split.
  - now injection Ht as <-.
  - f_equal. unfold Rmean, example_values. simpl. lra.
Qed.

Lemma calculateCI_formulas_witness :
  exists r,
    calculateCI example_sample (Fin 95) = Normal (Some r)
    /\ Result.n r = 5%nat
    /\ Result.logMean r
       = Spec.mean (map (fun o => Math_log (raw o)) example_sample)
    /\ Result.geometricMean r = Math_exp (Result.logMean r).
Proof.
  destruct (@calculateCI_formulas example_sample (Fin 95)) as (r & Hr & H);
    [simpl; lia |].
  exists r. split; [exact Hr |]. intuition.
Defined.

Lemma calculateCI_undefined_iff_witness :
  calculateCI [] (Fin 95) = Normal None
  /\ exists r, calculateCI example_sample (Fin 90) = Normal (Some r)
               /\ Result.n r = 5%nat.
Proof.
  split.
  - apply (proj1 (calculateCI_undefined_iff [] (Fin 95))). simpl. lia.
  - destruct (proj2 (calculateCI_undefined_iff example_sample (Fin 90)))
      as (r & Hr & Hn & _); [simpl; lia |].
    exists r. split; [exact Hr | exact Hn].
Defined.

Lemma ci_contains_geometric_mean_witness :
  exists r,
    calculateCI example_sample (Fin 95) = Normal (Some r)
    /\ num_le (Result.ciLow r) (Result.geometricMean r)
    /\ num_le (Result.geometricMean r) (Result.ciHigh r).
Proof.
  destruct (@calculateCI_returns example_sample (Fin 95)) as [r Hr];
    [simpl; lia |].
  exists r. split; [exact Hr |].
  apply (@ci_contains_geometric_mean example_sample example_values (Fin 95) r).
  - split; [reflexivity | repeat constructor; lra].
  - exact Hr.
Defined.

Lemma ci_width_monotone_witness :
  exists r80 r90 r95,
    calculateCI example_sample (Fin 80) = Normal (Some r80)
    /\ calculateCI example_sample (Fin 90) = Normal (Some r90)
    /\ calculateCI example_sample (Fin 95) = Normal (Some r95)
    /\ num_le (width r80) (width r90) /\ num_le (width r90) (width r95).
Proof.
  destruct (@calculateCI_returns example_sample (Fin 80)) as [r80 H80];
    [simpl; lia |].
  destruct (@calculateCI_returns example_sample (Fin 90)) as [r90 H90];
    [simpl; lia |].
  destruct (@calculateCI_returns example_sample (Fin 95)) as [r95 H95];
    [simpl; lia |].
  exists r80, r90, r95. split; [exact H80 |]. split; [exact H90 |].
  split; [exact H95 |].
  assert (W : forall cl r, calculateCI example_sample cl = Normal (Some r) ->
                           isNaN (width r) = false).
  { intros cl r Hr.
    destruct (fp_estimate example_finite_positive
                (calculateCI_Some_length _ _ Hr) _ Hr)
      as (t & _ & _ & _ & _ & _ & _ & _ & L & U & _).
    unfold width. now rewrite L, U. }
  apply (@ci_width_monotone example_sample r80 r90 r95 H80 H90 H95);
    eapply W; eassumption.
Defined.

Lemma tCritical_positive_margin_nonneg_witness :
  (exists t, getTCritical 4 (Fin 95) = Normal (Fin t) /\ 0 < t)
  /\ exists r,
       calculateCI example_sample (Fin 95) = Normal (Some r)
       /\ num_le (Fin 0) (Result.margin r).
Proof.
  destruct tCritical_positive_margin_nonneg as (_ & Ht & _ & Hm). split.
  - destruct (Ht 4%Z (Fin 95)) as (t & E & Hpos & _); [lia |].
    exists t. split; [exact E | exact Hpos].
  - destruct (@calculateCI_returns example_sample (Fin 95)) as [r Hr];
      [simpl; lia |].
    exists r. split; [exact Hr |].
    apply (Hm example_sample example_values (Fin 95) r); [| exact Hr].
    split; [reflexivity | repeat constructor; lra].
Defined.

(** * Further properties of the code *)

(** ** More on the parser *)

Lemma String_split_nonempty (sep : ascii) (s : jsstring) :
  String_split sep s <> [].
Proof.
  destruct s as [| c s]; simpl; [discriminate |].
  destruct (Ascii.eqb c sep); [discriminate |].
  destruct (String_split sep s); discriminate.
Qed.

Lemma String_split_app (sep : ascii) (a b : jsstring) :
  String_split sep (a ++ sep :: b) = String_split sep a ++ String_split sep b.
Proof.
  induction a as [| c a IH]; simpl.
  - now rewrite Ascii.eqb_refl.
  - destruct (Ascii.eqb c sep); rewrite IH; [reflexivity |].
    pose proof (String_split_nonempty sep a) as Hne.
    destruct (String_split sep a) as [| l ls]; [contradiction | reflexivity].
Qed.

Lemma indexed_from_app (i : nat) (l1 l2 : list jsstring) :
  indexed_from i (l1 ++ l2)
  = indexed_from i l1 ++ indexed_from (i + length l1) l2.
Proof.
  revert i. unfold indexed_from.
  induction l1 as [| a l1 IH]; intros i; cbn [length app seq combine].
  - now rewrite Nat.add_0_r.
  - rewrite IH. now replace (S i + length l1)%nat with (i + S (length l1))%nat by lia.
Qed.

Lemma indexed_from_shift (i k : nat) (l : list jsstring) :
  indexed_from (i + k) l = map (fun p => (fst p + k, snd p))%nat (indexed_from i l).
Proof.
  revert i. unfold indexed_from.
  induction l as [| a l IH]; intros i; cbn [length seq combine map]; [reflexivity |].
  cbn [fst snd]. f_equal. apply (IH (S i)).
Qed.

Lemma entry_of_shift (toStr : number -> jsstring) (i k : nat) (line : jsstring) :
  entry_of toStr (i + k) line = shift_lines k (entry_of toStr i line).
Proof.
  unfold entry_of, shift_lines. cbn [raw formatted lineNumber]. f_equal. lia.
Qed.

Lemma parsed_from_shift (toStr : number -> jsstring) (k : nat) (l : list jsstring) :
  map (fun p => entry_of toStr (fst p) (snd p))
      (filter (fun p => valid (snd p)) (indexed_from k l))
  = map (shift_lines k)
        (map (fun p => entry_of toStr (fst p) (snd p))
             (filter (fun p => valid (snd p)) (indexed_from 0 l))).
Proof.
  change k with (0 + k)%nat at 1. rewrite indexed_from_shift.
  induction (indexed_from 0 l) as [| [j line] ps IH]; [reflexivity |].
  cbn [map filter fst snd]. destruct (valid line); [| exact IH].
  cbn [map fst snd]. now rewrite IH, entry_of_shift.
Qed.

(** X1: parsing a text followed by a line feed and a second text gives the
    entries of the first text followed by those of the second, the line
    numbers of the second moved down by the number of lines of the first. *)
Theorem parseTimeData_app (toStr : number -> jsstring) (a b : jsstring) :
  parseTimeData toStr (a ++ LF :: b)
  = parseTimeData toStr a
    ++ map (shift_lines (length (String_split LF a))) (parseTimeData toStr b).
Proof.
  rewrite !parseTimeData_filter, String_split_app, indexed_from_app.
  rewrite filter_app, map_app. f_equal. apply parsed_from_shift.
Qed.

Lemma parsed_trim_eq (toStr : number -> jsstring) (i : nat)
    (ls ls' : list jsstring) :
  Forall2 (fun l l' => String_trim l = String_trim l') ls ls' ->
  map (fun p => entry_of toStr (fst p) (snd p))
      (filter (fun p => valid (snd p)) (indexed_from i ls))
  = map (fun p => entry_of toStr (fst p) (snd p))
        (filter (fun p => valid (snd p)) (indexed_from i ls')).
Proof.
  intros H. revert i. unfold indexed_from.
  induction H as [| l l' ls ls' E _ IH]; intros i; [reflexivity |].
  assert (V : valid l = valid l') by (unfold valid; now rewrite E).
  cbn [length seq combine filter snd]. rewrite V.
  destruct (valid l'); [| apply IH].
  cbn [map fst snd]. rewrite IH. f_equal. unfold entry_of. now rewrite E.
Qed.

Lemma trim_start_blank_app (l x : jsstring) :
  forallb is_ws l = true -> trim_start (l ++ x) = trim_start x.
Proof.
  induction l as [| c l IH]; simpl; [reflexivity |].
  destruct (is_ws c); simpl; [exact IH | discriminate].
Qed.

Lemma trim_start_app (l x : jsstring) :
  forallb is_ws l = false -> trim_start (l ++ x) = trim_start l ++ x.
Proof.
  induction l as [| c l IH]; simpl; [discriminate |].
  destruct (is_ws c); simpl; [exact IH | reflexivity].
Qed.

Lemma trim_end_ws (t : jsstring) (c : ascii) :
  is_ws c = true -> trim_end (t ++ [c]) = trim_end t.
Proof.
  intros H. unfold trim_end. rewrite rev_app_distr. simpl. now rewrite H.
Qed.

Lemma String_trim_ws_end (l : jsstring) (c : ascii) :
  is_ws c = true -> String_trim (l ++ [c]) = String_trim l.
Proof.
  intros H. unfold String_trim. destruct (forallb is_ws l) eqn:E.
  - rewrite trim_start_blank_app by exact E. simpl. rewrite H.
    apply trim_start_nil_iff in E. now rewrite E.
  - rewrite trim_start_app by exact E. now apply trim_end_ws.
Qed.

Lemma String_split_crlf (s : jsstring) :
  Forall2 (fun l l' => l' = l \/ l' = l ++ [CR])
          (String_split LF s) (String_split LF (crlf s)).
Proof.
  induction s as [| c s IH]; cbn [crlf String_split].
  - constructor; [now left | constructor].
  - destruct (Ascii.eqb c LF) eqn:E.
    + cbn [String_split]. change (Ascii.eqb CR LF) with false.
      rewrite Ascii.eqb_refl. constructor; [now right | exact IH].
    + cbn [String_split]. rewrite E.
      destruct IH as [| l l' ls ls' [-> | ->] IH']; constructor; auto.
Qed.

(** X2: the parsed sample depends on each line only through its trimmed
    text: two inputs whose lines have pairwise the same trimmed text parse
    to the same entries; in particular a text with Windows line endings
    (CR LF) parses as the same text with LF endings. *)
Theorem parseTimeData_whitespace (toStr : number -> jsstring) :
  (forall input input',
      Forall2 (fun l l' => String_trim l = String_trim l')
              (String_split LF input) (String_split LF input') ->
      parseTimeData toStr input = parseTimeData toStr input')
  /\ (forall input, parseTimeData toStr (crlf input) = parseTimeData toStr input).
Proof.
  assert (G : forall input input',
             Forall2 (fun l l' => String_trim l = String_trim l')
                     (String_split LF input) (String_split LF input') ->
             parseTimeData toStr input = parseTimeData toStr input').
  { intros input input' H. rewrite !parseTimeData_filter.
    now apply parsed_trim_eq. }
  split; [exact G |].
  intros input. symmetry. apply G.
  eapply Forall2_impl; [| apply String_split_crlf].
  intros l l' [-> | ->]; [reflexivity |].
  symmetry. now apply String_trim_ws_end.
Qed.

Lemma parseTimeData_whitespace_witness :
  parseTimeData (fun _ => []) (js "122 " ++ [LF] ++ js "  50.5")
  = parseTimeData (fun _ => []) (js "122" ++ [LF] ++ js "50.5").
Proof.
  apply (proj1 (parseTimeData_whitespace (fun _ => []))).
  vm_compute. repeat constructor.
Defined.

(** ** More on [parseFloat] *)

Lemma take_digits_digits (s : jsstring) :
  Forall (fun c => is_digit c = true) (fst (take_digits s)).
Proof.
  induction s as [| c s IH]; simpl; [constructor |].
  destruct (is_digit c) eqn:E; [| constructor].
  destruct (take_digits s) as [ds r]. simpl in *. now constructor.
Qed.

Lemma digit_val_nonneg (c : ascii) : is_digit c = true -> (0 <= digit_val c)%Z.
Proof.
  unfold is_digit, digit_val. rewrite andb_true_iff, !Nat.leb_le. lia.
Qed.

Lemma digits_value_from (ds : jsstring) (acc : Z) :
  Forall (fun c => is_digit c = true) ds -> (0 <= acc)%Z ->
  (0 <= fold_left (fun a c => (10 * a + digit_val c)%Z) ds acc)%Z.
Proof.
  intros H. revert acc.
  induction H as [| c ds Hc _ IH]; intros acc Ha; cbn [fold_left].
  - exact Ha.
  - apply IH. apply digit_val_nonneg in Hc. lia.
Qed.

Lemma digits_value_nonneg (ds : jsstring) :
  Forall (fun c => is_digit c = true) ds -> (0 <= digits_value ds)%Z.
Proof. intros H. apply digits_value_from; [exact H | lia]. Qed.

Lemma decimal_value_nonneg (m e : Z) : (0 <= m)%Z -> 0 <= decimal_value m e.
Proof.
  intros Hm. unfold decimal_value. destruct (Z.leb_spec 0 e).
  - apply IZR_le. apply Z.mul_nonneg_nonneg; [exact Hm |].
    apply Z.pow_nonneg. lia.
  - assert (0 < 10 ^ (- e))%Z by (apply Z.pow_pos_nonneg; lia).
    apply Rmult_le_pos; [now apply IZR_le |].
    apply Rlt_le, Rinv_0_lt_compat. now apply IZR_lt.
Qed.

(** The literal found by [longest_prefix] carries the sign read by
    [parse_sign] and a non-negative mantissa. *)
Lemma longest_prefix_sign (s : jsstring) (l : StrDecimalLiteral) :
  longest_prefix s = Some l ->
  match l with
  | SDInfinity neg => neg = fst (parse_sign s)
  | SDDecimal neg m _ => neg = fst (parse_sign s) /\ (0 <= m)%Z
  end.
Proof.
  unfold longest_prefix. destruct (parse_sign s) as [neg r]. cbn [fst].
  destruct (strip_prefix (js "Infinity") r).
  - intros E. injection E as <-. reflexivity.
  - pose proof (take_digits_digits r) as Hip.
    destruct (take_digits r) as [ip r1]. cbn [fst] in Hip.
    assert (Hfp : forall fp r2,
               match r1 with
               | c :: r1' =>
                   if Ascii.eqb c "." then take_digits r1' else ([], r1)
               | [] => ([], r1)
               end = (fp, r2) ->
               Forall (fun c => is_digit c = true) fp).
    { intros fp r2 E. destruct r1 as [| c r1'].
      - injection E as <- _. constructor.
      - destruct (Ascii.eqb c ".").
        + pose proof (take_digits_digits r1') as H. rewrite E in H. exact H.
        + injection E as <- _. constructor. }
    destruct (match r1 with
              | c :: r1' =>
                  if Ascii.eqb c "." then take_digits r1' else ([], r1)
              | [] => ([], r1)
              end) as [fp r2] eqn:E.
    specialize (Hfp _ _ eq_refl).
    assert (Hm : (0 <= digits_value (ip ++ fp))%Z)
      by (apply digits_value_nonneg, Forall_app; auto).
    destruct ip, fp; intros E'; try discriminate; injection E' as <-; auto.
Qed.

Lemma StringNumericValue_negative (l : StrDecimalLiteral) :
  match l with
  | SDInfinity neg => neg = true
  | SDDecimal neg m _ => neg = true /\ (0 <= m)%Z
  end ->
  num_gtb (StringNumericValue l) (Fin 0) = false.
Proof.
  destruct l as [neg | neg m e]; simpl.
  - intros ->. reflexivity.
  - intros [-> Hm]. destruct (MV_underflows m e).
    + cbn. apply Rltb_false. lra.
    + destruct (MV_overflows m e); [reflexivity |].
      cbn. apply Rltb_false. pose proof (decimal_value_nonneg e Hm). lra.
Qed.

Lemma parseFloat_minus (rest : jsstring) :
  num_gtb (parseFloat ("-"%char :: rest)) (Fin 0) = false.
Proof.
  unfold parseFloat. change (trim_start ("-"%char :: rest)) with ("-"%char :: rest).
  destruct (longest_prefix ("-"%char :: rest)) as [l |] eqn:E; [| reflexivity].
  apply StringNumericValue_negative.
  pose proof (longest_prefix_sign _ E) as H. cbn in H.
  destruct l; intuition.
Qed.

(** X3: a line whose trimmed text begins with a minus sign never has an
    entry in the parsed sample, whatever follows the sign. *)
Theorem parseTimeData_rejects_minus (toStr : number -> jsstring)
    (input line rest : jsstring) (k : nat) :
  nth_error (String_split LF input) k = Some line ->
  String_trim line = "-"%char :: rest ->
  ~ included toStr input (k + 1).
Proof.
  intros Hn Ht Hin.
  apply (@included_iff toStr input line k Hn) in Hin.
  apply valid_iff in Hin as (_ & _ & Hpos).
  rewrite Ht, parseFloat_minus in Hpos. discriminate.
Qed.

Lemma parseTimeData_rejects_minus_witness :
  ~ included (fun _ => []) example_input 3.
Proof.
  apply (@parseTimeData_rejects_minus (fun _ => []) example_input
           (js "-5") (js "5") 2%nat); vm_compute; reflexivity.
Defined.

Lemma digit_char (c : ascii) :
  is_digit c = true ->
  is_ws c = false /\ Ascii.eqb c "+" = false /\ Ascii.eqb c "-" = false
  /\ Ascii.eqb "I" c = false.
Proof.
  destruct c as [[] [] [] [] [] [] [] []]; vm_compute; intuition discriminate.
Qed.

Lemma take_digits_app (d rest : jsstring) :
  Forall (fun c => is_digit c = true) d ->
  match rest with [] => True | c :: _ => is_digit c = false end ->
  take_digits (d ++ rest) = (d, rest).
Proof.
  intros Hd Hr. induction Hd as [| c d Hc _ IH]; cbn [app take_digits].
  - destruct rest as [| c rest]; [reflexivity |]. cbn [take_digits].
    now rewrite Hr.
  - now rewrite Hc, IH.
Qed.

Lemma longest_prefix_numeral (d rest : jsstring) :
  d <> [] -> Forall (fun c => is_digit c = true) d -> ends_numeral rest ->
  longest_prefix (trim_start (d ++ rest))
  = Some (SDDecimal false (digits_value d) 0).
Proof.
  intros Hne Hd Hr. destruct d as [| c d]; [contradiction |].
  pose proof (Forall_inv Hd) as Hc.
  destruct (digit_char c Hc) as (Hws & Hplus & Hminus & HI).
  cbn [app trim_start]. rewrite Hws.
  unfold longest_prefix. cbn [parse_sign]. rewrite Hplus, Hminus.
  change (strip_prefix (js "Infinity") (c :: d ++ rest)) with
    (if Ascii.eqb "I" c then strip_prefix (js "nfinity") (d ++ rest) else None).
  rewrite HI.
  change (c :: d ++ rest) with ((c :: d) ++ rest).
  rewrite take_digits_app.
  2: exact Hd.
  2:{ destruct rest; [exact I | apply Hr]. }
  assert (E : match rest with
              | c0 :: r1' =>
                  if Ascii.eqb c0 "." then take_digits r1' else ([], rest)
              | [] => ([], rest)
              end = ([], rest)).
  { destruct rest as [| c0 rest']; [reflexivity |].
    destruct Hr as (_ & Hdot & _). now rewrite Hdot. }
  rewrite E. rewrite app_nil_r.
  assert (Ee : parse_exponent rest = 0%Z).
  { destruct rest as [| c0 rest']; [reflexivity |].
    destruct Hr as (_ & _ & He & HE). cbn [parse_exponent]. now rewrite He, HE. }
  rewrite Ee. reflexivity.
Qed.

Lemma parseFloat_numeral (d rest : jsstring) :
  d <> [] -> Forall (fun c => is_digit c = true) d -> ends_numeral rest ->
  (0 < digits_value d)%Z ->
  parseFloat (d ++ rest)
  = if MV_overflows (digits_value d) 0 then Inf false
    else Fin (IZR (digits_value d)).
Proof.
  intros Hne Hd Hr Hpos. unfold parseFloat.
  rewrite longest_prefix_numeral by assumption.
  unfold StringNumericValue, MV_underflows, decimal_value. cbn [Z.leb Z.compare].
  destruct (Z.eqb_spec (digits_value d) 0); [lia |].
  now rewrite Z.pow_0_r, Z.mul_1_r.
Qed.

(** X4: a line whose trimmed text is a positive whole numeral followed by
    text that cannot continue the literal (a unit, say) has an entry at its
    line number, the text being ignored.  The value of the entry is the
    numeral's when the numeral is at most [2^53], every whole number up to
    there being a binary64 value, and +Infinity when the numeral is beyond
    the binary64 range; a numeral in between is rounded to a binary64 value,
    about which nothing is stated. *)
Theorem parseTimeData_numeral_with_unit (toStr : number -> jsstring)
    (input line d rest : jsstring) (k : nat) :
  nth_error (String_split LF input) k = Some line ->
  String_trim line = d ++ rest ->
  d <> [] -> Forall (fun c => is_digit c = true) d -> ends_numeral rest ->
  (0 < digits_value d)%Z ->
  exists o,
    In o (parseTimeData toStr input)
    /\ lineNumber o = (k + 1)%nat
    /\ ((digits_value d <= 2 ^ 53)%Z -> raw o = Fin (IZR (digits_value d)))
    /\ (MV_overflows (digits_value d) 0 = true -> raw o = Inf false).
Proof.
  intros Hn Ht Hne Hd Hr Hpos.
  pose proof (parseFloat_numeral rest Hne Hd Hr Hpos) as Hv.
  exists (entry_of toStr k line). split; [| split; [| split]].
  - apply parsed_entries. exists k, line. split; [exact Hn |].
    split; [| reflexivity]. apply valid_iff. rewrite Ht, Hv.
    split; [destruct d; [contradiction | reflexivity] |].
    destruct (MV_overflows (digits_value d) 0); split; try reflexivity.
    cbn. apply Rltb_true. now apply IZR_lt.
  - reflexivity.
  - intros Hle. cbn [entry_of raw]. rewrite Ht, Hv.
    assert (Hov : MV_overflows (digits_value d) 0 = false).
    { unfold MV_overflows. cbn [Z.leb Z.compare].
      rewrite Z.pow_0_r, Z.mul_1_r. apply Z.leb_gt.
      eapply Z.le_lt_trans; [exact Hle | reflexivity]. }
    now rewrite Hov.
  - intros Hov. cbn [entry_of raw]. now rewrite Ht, Hv, Hov.
Qed.

Lemma parseTimeData_numeral_with_unit_witness :
  exists o,
    In o (parseTimeData (fun _ => []) (js "5 seconds"))
    /\ lineNumber o = 1%nat /\ raw o = Fin 5.
Proof.
  destruct (@parseTimeData_numeral_with_unit (fun _ => []) (js "5 seconds")
              (js "5 seconds") (js "5") (js " seconds") 0%nat)
    as (o & Hin & Hline & Hraw & _).
  - reflexivity.
  - vm_compute. reflexivity.
  - discriminate.
  - repeat constructor.
  - vm_compute. auto.
  - vm_compute. reflexivity.
  - exists o. split; [exact Hin |]. split; [exact Hline |].
    apply Hraw. vm_compute. discriminate.
Defined.

(** ** More on the critical-value table *)

Lemma get_row_missing (k : Z) :
  (k <= 0)%Z -> get_row k tValues = None.
Proof.
  intros H. unfold tValues. cbn [get_row].
  repeat match goal with
         | |- context [(k =? ?c)%Z] => destruct (Z.eqb_spec k c); [lia |]
         end.
  reflexivity.
Qed.

(** X5: the lookup throws exactly when the degrees of freedom are 0 or
    negative, whatever the confidence level: the table has no row for them,
    and [df <= 10] keeps [df] as the key. *)
Theorem getTCritical_throws_iff (df : Z) (cl : number) :
  getTCritical df cl = Throw <-> (df <= 0)%Z.
Proof.
  split.
  - intros E. destruct (Z.le_gt_cases df 0) as [H | H]; [exact H |].
    assert (Hdf : (1 <= df)%Z) by lia.
    destruct (getTCritical_value cl Hdf) as (a & b & c & _ & _ & _ & _ & _ & _ & _ & Hv).
    rewrite Hv in E. discriminate.
  - intros H. unfold getTCritical.
    assert (Hk : df_key df = df).
    { unfold df_key. destruct (Z.leb_spec df 30); [| lia].
      destruct (Z.leb_spec df 10); [reflexivity | lia]. }
    rewrite Hk, get_row_missing by exact H. reflexivity.
Qed.

Lemma getTCritical_throws_iff_witness :
  getTCritical 0 (Fin 95) = Throw /\ getTCritical (-3) NaN = Throw.
Proof.
  split.
  - apply (proj2 (getTCritical_throws_iff 0 (Fin 95))). lia.
  - apply (proj2 (getTCritical_throws_iff (-3) NaN)). lia.
Defined.

Lemma df_key_monotone (df df' : Z) :
  (df <= df')%Z -> (df_key df <= df_key df')%Z.
Proof.
  intros H. rewrite !df_key_bucket. unfold Spec.bucket.
  repeat match goal with
         | |- context [(?a <=? ?b)%Z] => destruct (Z.leb_spec a b)
         end; lia.
Qed.

(** The rows of the table decrease, column by column, as the key grows. *)
Lemma rows_decrease (k k' : Z) (a b c a' b' c' : R) :
  (k <= k')%Z ->
  get_row k tValues = Some (row a b c) ->
  get_row k' tValues = Some (row a' b' c') ->
  a' <= a /\ b' <= b /\ c' <= c.
Proof.
  intros Hle Hr Hr'.
  assert (Hk : In k [1; 2; 3; 4; 5; 6; 7; 8; 9; 10; 15; 20; 25; 30]%Z).
  { destruct (Z.le_gt_cases k 0) as [H0 | H0];
      [rewrite get_row_missing in Hr by exact H0; discriminate |].
    unfold tValues in Hr. cbn [get_row] in Hr.
    repeat match type of Hr with
           | context [(k =? ?c)%Z] =>
               destruct (Z.eqb_spec k c); [subst; simpl; tauto |]
           end.
    discriminate. }
  assert (Hk' : In k' [1; 2; 3; 4; 5; 6; 7; 8; 9; 10; 15; 20; 25; 30]%Z).
  { destruct (Z.le_gt_cases k' 0) as [H0 | H0];
      [rewrite get_row_missing in Hr' by exact H0; discriminate |].
    unfold tValues in Hr'. cbn [get_row] in Hr'.
    repeat match type of Hr' with
           | context [(k' =? ?c)%Z] =>
               destruct (Z.eqb_spec k' c); [subst; simpl; tauto |]
           end.
    discriminate. }
  cbn [In] in Hk, Hk'.
  repeat (destruct Hk as [Hk | Hk]; [subst k | ]); try contradiction;
    repeat (destruct Hk' as [Hk' | Hk']; [subst k' | ]); try contradiction;
    try lia;
    cbn in Hr, Hr'; unfold row in Hr, Hr';
    injection Hr as <- <- <-; injection Hr' as <- <- <-; lra.
Qed.

(** X6: for a fixed confidence level the critical value does not grow with
    the degrees of freedom: for [1 <= df <= df'] the value returned for
    [df'] is at most the value returned for [df]. *)
Theorem getTCritical_decreasing (df df' : Z) (cl : number) (t t' : number) :
  (1 <= df)%Z -> (df <= df')%Z ->
  getTCritical df cl = Normal t ->
  getTCritical df' cl = Normal t' ->
  num_le t' t.
Proof.
  intros H1 Hle Ht Ht'.
  assert (H1' : (1 <= df')%Z) by lia.
  destruct (getTCritical_value cl H1)
    as (a & b & c & Hr & Ha & Hab & Hbc & _ & _ & _ & Hv).
  destruct (getTCritical_value cl H1')
    as (a' & b' & c' & Hr' & Ha' & Hab' & Hbc' & _ & _ & _ & Hv').
  rewrite Hv in Ht. rewrite Hv' in Ht'.
  injection Ht as <-. injection Ht' as <-.
  destruct (rows_decrease (df_key_monotone Hle) Hr Hr') as (Xa & Xb & Xc).
  apply num_le_Fin.
  repeat match goal with
         | |- context [if ?b then _ else _] => destruct b
         end; lra.
Qed.

Lemma getTCritical_decreasing_witness :
  num_le (Fin 2.131) (Fin 2.776).
Proof.
  apply (@getTCritical_decreasing 4 11 (Fin 95) (Fin 2.776) (Fin 2.131)).
  - lia.
  - lia.
  - erewrite getTCritical_at by (try reflexivity; lra).
    rewrite !Reqb_false by lra. rewrite Reqb_true by lra. reflexivity.
  - erewrite getTCritical_at by (try reflexivity; lra).
    rewrite !Reqb_false by lra. rewrite Reqb_true by lra. reflexivity.
Defined.

(** ** The parser followed by the estimator *)

(** Every parsed value is strictly positive: a positive real or +Infinity. *)
Lemma parsed_positive (toStr : number -> jsstring) (input : jsstring) :
  Forall (fun o => num_gtb (raw o) (Fin 0) = true) (parseTimeData toStr input).
Proof.
  apply Forall_forall. intros o Hin.
  apply parsed_entries in Hin as (k & line & _ & Hv & ->).
  apply valid_iff in Hv as (_ & _ & Hpos). exact Hpos.
Qed.

Lemma positive_number (v : number) :
  num_gtb v (Fin 0) = true -> v = Inf false \/ exists x, v = Fin x /\ 0 < x.
Proof.
  destruct v as [| [] | x]; cbn; try discriminate; [now left |].
  intros H. right. exists x. split; [reflexivity | now apply Rltb_iff].
Qed.

Lemma positive_sample_cases (sample : list TimeEntry) :
  Forall (fun o => num_gtb (raw o) (Fin 0) = true) sample ->
  (exists xs, finite_positive sample xs)
  \/ Exists (fun o => raw o = Inf false) sample.
Proof.
  induction 1 as [| o sample Ho _ [(xs & E & Hxs) | Hex]].
  - left. exists []. split; [reflexivity | constructor].
  - destruct (positive_number _ Ho) as [Hinf | (x & Hx & Hpos)].
    + right. now constructor.
    + left. exists (x :: xs). split; [cbn; now rewrite Hx, E | now constructor].
  - right. now constructor 2.
Qed.

Lemma sum_real_or_pinf (l : list number) :
  Forall real_or_pinf l -> real_or_pinf (Spec.sum l).
Proof.
  induction 1 as [| v l Hv _ IH]; cbn [Spec.sum fold_right].
  - right. now exists 0.
  - fold (Spec.sum l).
    destruct Hv as [-> | (y & ->)], IH as [-> | (z & ->)]; cbn;
      try (now left); right; eauto.
Qed.

Lemma sum_pinf (l : list number) :
  Forall real_or_pinf l -> Exists (fun v => v = Inf false) l ->
  Spec.sum l = Inf false.
Proof.
  induction 1 as [| v l Hv Hl IH]; intros Hex; [inversion Hex |].
  cbn [Spec.sum fold_right]. fold (Spec.sum l).
  pose proof (sum_real_or_pinf Hl) as Hs.
  inversion Hex as [? ? Hv0 | ? ? Hex']; subst.
  - destruct Hs as [-> | (z & ->)]; reflexivity.
  - rewrite (IH Hex'). destruct Hv as [-> | (y & ->)]; reflexivity.
Qed.

Lemma num_add_NaN_r (a : number) : (a + NaN)%num = NaN.
Proof. destruct a; reflexivity. Qed.

Lemma sum_NaN (l : list number) : In NaN l -> Spec.sum l = NaN.
Proof.
  induction l as [| v l IH]; intros Hin; [destruct Hin |].
  cbn [Spec.sum fold_right]. fold (Spec.sum l).
  destruct Hin as [-> | Hin]; [reflexivity |].
  rewrite (IH Hin). apply num_add_NaN_r.
Qed.

Lemma pinf_over_length (n : nat) : (Inf false / of_nat n)%num = Inf false.
Proof.
  unfold of_nat. cbn. rewrite Rltb_false; [reflexivity |].
  pose proof (pos_INR n). lra.
Qed.

Section InfiniteSample.

Variable sample : list TimeEntry.
Hypothesis Hpos : Forall (fun o => num_gtb (raw o) (Fin 0) = true) sample.
Hypothesis Hinf : Exists (fun o => raw o = Inf false) sample.

Lemma inf_raws : Forall real_or_pinf (map raw sample).
Proof.
  apply Forall_map. eapply Forall_impl; [| exact Hpos].
  intros o Ho. destruct (positive_number _ Ho) as [-> | (x & -> & _)];
    [now left | right; eauto].
Qed.

Lemma inf_logTimes : Forall real_or_pinf (Spec.logTimes sample).
Proof.
  unfold Spec.logTimes. apply Forall_map. eapply Forall_impl; [| exact Hpos].
  intros o Ho. destruct (positive_number _ Ho) as [-> | (x & -> & Hx)].
  - now left.
  - right. rewrite Math_log_Fin by exact Hx. eauto.
Qed.

Lemma inf_logTimes_pinf : Exists (fun v => v = Inf false) (Spec.logTimes sample).
Proof.
  unfold Spec.logTimes. apply Exists_map. eapply Exists_impl; [| exact Hinf].
  intros o ->. reflexivity.
Qed.

Lemma inf_logMean : Spec.logMean sample = Inf false.
Proof.
  unfold Spec.logMean, Spec.mean.
  rewrite (sum_pinf inf_logTimes inf_logTimes_pinf). apply pinf_over_length.
Qed.

Lemma inf_arithmeticMean : Spec.arithmeticMean sample = Inf false.
Proof.
  unfold Spec.arithmeticMean, Spec.mean. rewrite sum_pinf.
  - apply pinf_over_length.
  - exact inf_raws.
  - apply Exists_map. exact Hinf.
Qed.

Lemma inf_logVariance : Spec.logVariance sample = NaN.
Proof.
  unfold Spec.logVariance. rewrite inf_logMean, sum_NaN; [reflexivity |].
  apply in_map_iff. exists (Inf false). split; [reflexivity |].
  pose proof inf_logTimes_pinf as H. apply Exists_exists in H as (v & Hv & ->).
  exact Hv.
Qed.

Lemma inf_margin (cl : number) : Spec.marginInLogSpace sample cl = NaN.
Proof.
  unfold Spec.marginInLogSpace, Spec.standardErrorOfLogMean, Spec.logSD.
  rewrite inf_logVariance. apply num_mul_NaN_r.
Qed.

End InfiniteSample.

Lemma finite_positive_no_inf (sample : list TimeEntry) (xs : list R) :
  finite_positive sample xs ->
  ~ Exists (fun o => raw o = Inf false) sample.
Proof.
  intros [E _] Hex. apply Exists_exists in Hex as (o & Hin & Ho).
  assert (Hin' : In (raw o) (map Fin xs)) by (rewrite <- E; now apply in_map).
  apply in_map_iff in Hin' as (x & Hx & _). congruence.
Qed.

(** What the estimator returns on a sample of strictly positive values. *)
Lemma positive_sample_result (sample : list TimeEntry) (cl : number) (r : Result.t) :
  Forall (fun o => num_gtb (raw o) (Fin 0) = true) sample ->
  calculateCI sample cl = Normal (Some r) ->
  num_gtb (Result.geometricMean r) (Fin 0) = true
  /\ num_gtb (Result.arithmeticMean r) (Fin 0) = true
  /\ (isNaN (Result.margin r) = true
      <-> Exists (fun o => raw o = Inf false) sample)
  /\ (isNaN (Result.ciLow r) = true
      <-> Exists (fun o => raw o = Inf false) sample)
  /\ (isNaN (Result.ciHigh r) = true
      <-> Exists (fun o => raw o = Inf false) sample).
Proof.
  intros Hpos Hr. pose proof (calculateCI_Some_length _ _ Hr) as Hn.
  destruct (positive_sample_cases Hpos) as [(xs & Hfp) | Hinf].
  - pose proof (finite_positive_no_inf Hfp) as Hno.
    destruct (fp_estimate Hfp Hn _ Hr)
      as (t & _ & _ & _ & _ & _ & -> & -> & -> & -> & ->).
    assert (Hlen : (1 <= length xs)%nat) by (rewrite <- (fp_length Hfp); lia).
    cbn. repeat split; try (intros; discriminate); try (intros; contradiction).
    + apply Rltb_true, exp_pos.
    + apply Rltb_true, Rmean_pos; [apply Hfp | exact Hlen].
  - rewrite calculateCI_estimate in Hr. unfold Spec.estimate in Hr.
    destruct (length sample <? 2)%nat; [discriminate |].
    apply Normal_Some_inj in Hr. subst r.
    cbn [Result.geometricMean Result.arithmeticMean Result.margin
         Result.ciLow Result.ciHigh].
    rewrite (inf_logMean Hpos Hinf), (inf_arithmeticMean Hpos Hinf),
      (inf_margin Hpos Hinf). cbn. tauto.
Qed.

(** X7: for every input text and confidence level, when the estimator
    produces a result from the parsed sample, the geometric and the
    arithmetic mean are strictly positive Numbers (never NaN), and the
    margin and the two bounds of the interval are NaN exactly when some
    line was parsed to +Infinity. *)
Theorem parsed_result_NaN_iff (toStr : number -> jsstring) (input : jsstring)
    (cl : number) (r : Result.t) :
  calculateCI (parseTimeData toStr input) cl = Normal (Some r) ->
  num_gtb (Result.geometricMean r) (Fin 0) = true
  /\ num_gtb (Result.arithmeticMean r) (Fin 0) = true
  /\ (isNaN (Result.margin r) = true
      <-> Exists (fun o => raw o = Inf false) (parseTimeData toStr input))
  /\ (isNaN (Result.ciLow r) = true
      <-> Exists (fun o => raw o = Inf false) (parseTimeData toStr input))
  /\ (isNaN (Result.ciHigh r) = true
      <-> Exists (fun o => raw o = Inf false) (parseTimeData toStr input)).
Proof.
  intros Hr. eapply positive_sample_result; [apply parsed_positive | exact Hr].
Qed.

Lemma parsed_result_NaN_iff_witness :
  exists r,
    calculateCI (parseTimeData (fun _ => []) infinity_input) (Fin 95)
    = Normal (Some r)
    /\ num_gtb (Result.geometricMean r) (Fin 0) = true
    /\ isNaN (Result.ciLow r) = true.
Proof.
  destruct (@calculateCI_returns (parseTimeData (fun _ => []) infinity_input)
              (Fin 95)) as [r Hr].
  - rewrite parseTimeData_infinity_input. simpl. lia.
  - exists r. split; [exact Hr |].
    destruct (@parsed_result_NaN_iff (fun _ => []) infinity_input (Fin 95) r Hr)
      as (Hg & _ & _ & Hlow & _).
    split; [exact Hg |]. apply Hlow.
    rewrite parseTimeData_infinity_input. constructor.
    unfold entry_of. cbn [raw].
    replace (String_trim (js "Infinity")) with (js "Infinity")
      by (vm_compute; reflexivity).
    apply parseFloat_Infinity.
Defined.

(** ** [formatTime] *)

Lemma repeat_char_all (c : ascii) (k : nat) :
  Forall (fun d => d = c) (repeat_char c k).
Proof. induction k; simpl; constructor; auto. Qed.

Lemma repeat_char_length (c : ascii) (k : nat) : length (repeat_char c k) = k.
Proof. induction k; simpl; auto. Qed.

Lemma padStart_length (s : jsstring) (len : nat) (c : ascii) :
  length (padStart s len c) = Nat.max len (length s).
Proof. unfold padStart. rewrite length_app, repeat_char_length. lia. Qed.

(** X11: [formatTime] splits a number of seconds [0 <= x < 2^53] into whole
    minutes [m >= 0] and a remainder [0 <= r < 60] with [x = 60 m + r], and
    renders the minutes, a colon, and the remainder left-padded with zeros
    to at least two code units; for NaN and the infinities the minutes part
    renders the value itself and the seconds part renders NaN.  Below
    [2^53] the double quotient [x / 60] has the floor of the exact quotient
    and [x % 60] is exact; from about [2^55] on the rounded quotient can
    reach the next whole number, so the statement stops at [2^53]. *)
Theorem formatTime_parts (toStr : number -> jsstring) :
  (forall x : R,
      0 <= x < 2 ^ 53 ->
      exists (m : Z) (r : R) (zeros : jsstring),
        (0 <= m)%Z /\ 0 <= r < 60 /\ x = 60 * IZR m + r
        /\ Forall (fun d => d = "0"%char) zeros
        /\ (2 <= length (zeros ++ toStr (Fin r)))%nat
        /\ formatTime toStr (Fin x)
           = toStr (Fin (IZR m)) ++ js ":" ++ zeros ++ toStr (Fin r))
  /\ (forall v : number,
        isFinite v = false ->
        formatTime toStr v
        = toStr v ++ js ":" ++ padStart (toStr NaN) 2 "0").
Proof.
  split.
  - intros x [Hx _].
    assert (Hq : 0 <= x / 60) by (apply Rmult_le_pos; lra).
    destruct (base_Int_part (x / 60)) as [Hlo Hhi].
    set (m := Int_part (x / 60)) in *.
    exists m, (x - 60 * IZR m),
      (repeat_char "0" (2 - length (toStr (Fin (x - 60 * IZR m))))).
    split; [| split; [| split; [| split; [| split]]]].
    + assert (H : -1 < IZR m) by lra.
      apply lt_IZR in H. lia.
    + split; lra.
    + ring.
    + apply repeat_char_all.
    + rewrite length_app, repeat_char_length. lia.
    + unfold formatTime, padStart. cbn [num_div Math_floor num_rem].
      rewrite Reqb_false by lra. rewrite Rltb_false by lra.
      fold m. reflexivity.
  - intros [| s | x] Hv; try discriminate.
    + reflexivity.
    + unfold formatTime. cbn [num_div Math_floor num_rem].
      rewrite Rltb_false by lra. now rewrite xorb_false_r.
Qed.

Lemma formatTime_parts_witness :
  exists (m : Z) (r : R),
    (0 <= m)%Z /\ 0 <= r < 60 /\ 122 = 60 * IZR m + r.
Proof.
  destruct (proj1 (formatTime_parts (fun _ => [])) 122)
    as (m & r & _ & Hm & Hr & E & _).
  - split; [lra |]. apply Rlt_trans with (2 ^ 7); [lra |].
    apply Rlt_pow; [lra | lia].
  - exists m, r. auto.
Defined.

(** ** State, handlers and panels *)

Ltac eval_Number :=
  unfold Number_of_string;
  repeat match goal with
    | |- context [String_trim ?s] => evalc (String_trim s)
    end;
  cbv beta iota;
  repeat match goal with
    | |- context [scan_non_decimal ?s] => evalc (scan_non_decimal s)
    | |- context [scan_decimal ?s] => evalc (scan_decimal s)
    end;
  cbv beta iota; unfold StringNumericValue;
  repeat match goal with
    | |- context [MV_underflows ?m ?e] => evalc (MV_underflows m e)
    | |- context [MV_overflows ?m ?e] => evalc (MV_overflows m e)
    end;
  cbv beta iota; unfold decimal_value;
  repeat match goal with
    | |- context [(?a <=? ?b)%Z] => evalc ((a <=? b)%Z)
    | |- context [IZR (?a * ?b)%Z] => evalc ((a * b)%Z)
    | |- context [IZR (?a ^ ?b)%Z] => evalc ((a ^ b)%Z)
    end;
  cbv beta iota.

(** [Number] on the values of the three options, and on strings that are
    not decimal literals. *)
Lemma Number_of_option_values :
  map Number_of_string App.option_values = [Fin 95; Fin 90; Fin 80].
Proof.
  unfold App.option_values. cbn [map].
  repeat (f_equal; [eval_Number; reflexivity |]). reflexivity.
Qed.

Lemma Number_of_string_examples :
  Number_of_string (js "") = Fin 0
  /\ Number_of_string (js " 0x1F ") = Fin 31
  /\ Number_of_string (js "5 seconds") = NaN
  /\ Number_of_string (js "-Infinity") = Inf true.
Proof. repeat split; eval_Number; reflexivity. Qed.

Lemma scan_exponent_fst (s : jsstring) :
  fst (scan_exponent s) = parse_exponent s.
Proof.
  destruct s as [| c r]; [reflexivity |]. cbn [scan_exponent parse_exponent].
  destruct (Ascii.eqb c "e" || Ascii.eqb c "E"); [| reflexivity].
  destruct (parse_sign r) as [neg r'].
  destruct (take_digits r') as [[| d ds] rest]; reflexivity.
Qed.

(** [Number] and [parseFloat] read the same decimal literal. *)
Lemma scan_decimal_longest_prefix (s : jsstring) :
  option_map fst (scan_decimal s) = longest_prefix s.
Proof.
  unfold scan_decimal, longest_prefix.
  destruct (parse_sign s) as [neg r].
  destruct (strip_prefix (js "Infinity") r); [reflexivity |].
  destruct (take_digits r) as [ip r1].
  destruct (match r1 with
            | c :: r1' => if Ascii.eqb c "." then take_digits r1' else ([], r1)
            | [] => ([], r1)
            end) as [fp r2].
  rewrite <- scan_exponent_fst.
  destruct (scan_exponent r2) as [e rest].
  destruct ip, fp; reflexivity.
Qed.

Lemma run_snoc (toStr : number -> jsstring) (events : list App.event)
    (e : App.event) :
  App.run toStr (events ++ [e]) = App.step toStr (App.run toStr events) e.
Proof. unfold App.run. now rewrite fold_left_app. Qed.

Lemma App_parsed (toStr : number -> jsstring) (events : list App.event) :
  App.parsedTimes (App.run toStr events)
  = parseTimeData toStr (App.rawInput (App.run toStr events)).
Proof.
  induction events as [| e events IH] using rev_ind; [reflexivity |].
  rewrite run_snoc. destruct e; [reflexivity | exact IH].
Qed.

Lemma App_rawInput (toStr : number -> jsstring) (events : list App.event) :
  App.rawInput (App.run toStr events) = App.last_input events.
Proof.
  induction events as [| e events IH] using rev_ind; [reflexivity |].
  rewrite run_snoc. unfold App.last_input. rewrite fold_left_app.
  destruct e; [reflexivity | exact IH].
Qed.

Lemma App_level (toStr : number -> jsstring) (events : list App.event) :
  Forall App.admissible events ->
  In (App.confidenceLevel (App.run toStr events)) [Fin 95; Fin 90; Fin 80].
Proof.
  induction events as [| e events IH] using rev_ind; intros Hadm;
    [now left |].
  apply Forall_app in Hadm as [Hadm He]. apply Forall_inv in He.
  rewrite run_snoc. destruct e as [value | value]; cbn [App.step].
  - exact (IH Hadm).
  - cbn [App.handleLevelChange App.confidenceLevel].
    rewrite <- Number_of_option_values. now apply in_map.
Qed.

(** X12: the state after any sequence of events is determined by the
    latest text and the latest selection: it holds the latest text, the
    parse of that text (nothing of earlier texts is kept) and the level last
    selected, 95 at the start; when the selections are values of the
    select's options, the level is one of 95, 90 and 80. *)
Theorem App_state_invariant (toStr : number -> jsstring)
    (events : list App.event) :
  App.run toStr events
  = {| App.rawInput := App.last_input events;
       App.parsedTimes := parseTimeData toStr (App.last_input events);
       App.confidenceLevel := App.last_level events |}
  /\ (Forall App.admissible events ->
      In (App.last_level events) [Fin 95; Fin 90; Fin 80]).
Proof.
  assert (E : App.run toStr events
              = {| App.rawInput := App.last_input events;
                   App.parsedTimes := parseTimeData toStr (App.last_input events);
                   App.confidenceLevel := App.last_level events |}).
  { induction events as [| e events IH] using rev_ind; [reflexivity |].
    rewrite run_snoc, IH. unfold App.last_input, App.last_level.
    rewrite !fold_left_app. destruct e; reflexivity. }
  split; [exact E |].
  intros Hadm. pose proof (App_level toStr Hadm) as Hcl.
  rewrite E in Hcl. exact Hcl.
Qed.

Lemma App_state_invariant_witness :
  In (App.last_level [App.InputChange example_input; App.LevelChange (js "90")])
     [Fin 95; Fin 90; Fin 80].
Proof.
  apply (proj2 (App_state_invariant (fun _ => [])
                  [App.InputChange example_input; App.LevelChange (js "90")])).
  constructor; [exact I |].
  constructor; [right; left; reflexivity | constructor].
Defined.

Lemma get_alpha_level (a b c : R) (cl : number) :
  In cl [Fin 95; Fin 90; Fin 80] ->
  get_alpha (alpha_of cl) (row a b c)
  = Some (Fin (if num_eqb cl (Fin 80) then a
               else if num_eqb cl (Fin 90) then b else c)).
Proof.
  intros Hcl. unfold row, get_alpha.
  destruct Hcl as [<- | [<- | [<- | []]]].
  - rewrite !alpha_eqb_false by (intros E; injection E as E; lra).
    rewrite (proj2 (alpha_eqb (Fin 95) 0.05)) by (f_equal; lra).
    cbn [num_eqb]. rewrite !Reqb_false by lra. reflexivity.
  - rewrite alpha_eqb_false by (intros E; injection E as E; lra).
    rewrite (proj2 (alpha_eqb (Fin 90) 0.10)) by (f_equal; lra).
    cbn [num_eqb]. rewrite Reqb_false by lra. rewrite Reqb_true by lra.
    reflexivity.
  - rewrite (proj2 (alpha_eqb (Fin 80) 0.20)) by (f_equal; lra).
    cbn [num_eqb]. rewrite Reqb_true by lra. reflexivity.
Qed.

(** X13: in every state the handlers can reach, when the estimator produces
    a result its critical value is read from the table: the row for the
    bucket of [n - 1] exists and holds an entry for the chosen level, so
    that the fallback of [getTCritical] is never used. *)
Theorem App_critical_value_from_table (toStr : number -> jsstring)
    (events : list App.event) (r : Result.t) :
  Forall App.admissible events ->
  calculateCI (App.parsedTimes (App.run toStr events))
              (App.confidenceLevel (App.run toStr events))
  = Normal (Some r) ->
  exists rw,
    get_row (df_key (Result.df r)) tValues = Some rw
    /\ get_alpha (alpha_of (App.confidenceLevel (App.run toStr events))) rw
       = Some (Result.tCritical r).
Proof.
  intros Hadm Hr.
  pose proof (App_level toStr Hadm) as Hcl.
  set (s := App.run toStr events) in *.
  pose proof (calculateCI_Some_length _ _ Hr) as Hn.
  assert (Hdf : (1 <= Z.of_nat (length (App.parsedTimes s)) - 1)%Z) by lia.
  destruct (getTCritical_value (App.confidenceLevel s) Hdf)
    as (a & b & c & Hrow & Ha & Hab & Hbc & _ & _ & _ & Hv).
  pose proof (getTCritical_spec (App.confidenceLevel s) Hdf) as Hs.
  rewrite Hv in Hs. injection Hs as Hs.
  rewrite calculateCI_estimate in Hr. unfold Spec.estimate in Hr.
  destruct (length (App.parsedTimes s) <? 2)%nat; [discriminate |].
  apply Normal_Some_inj in Hr. subst r.
  cbn [Result.df Result.tCritical]. unfold Spec.degreesOfFreedom.
  exists (row a b c). split; [exact Hrow |].
  rewrite (get_alpha_level a b c Hcl), <- Hs. f_equal. f_equal.
  destruct Hcl as [<- | [<- | [<- | []]]]; cbn [num_eqb];
    rewrite ?Reqb_false by lra; rewrite ?Reqb_true by lra; reflexivity.
Qed.

Lemma App_critical_value_from_table_witness :
  exists r rw,
    calculateCI
      (App.parsedTimes (App.run (fun _ => []) [App.InputChange example_input]))
      (App.confidenceLevel (App.run (fun _ => []) [App.InputChange example_input]))
    = Normal (Some r)
    /\ get_row (df_key (Result.df r)) tValues = Some rw
    /\ get_alpha (alpha_of (Fin 95)) rw = Some (Result.tCritical r).
Proof.
  destruct (@calculateCI_returns
              (App.parsedTimes
                 (App.run (fun _ => []) [App.InputChange example_input]))
              (App.confidenceLevel
                 (App.run (fun _ => []) [App.InputChange example_input])))
    as [r Hr].
  - cbn [App.run fold_left App.step App.handleInputChange App.parsedTimes].
    rewrite parseTimeData_example. simpl. lia.
  - destruct (@App_critical_value_from_table (fun _ => [])
                [App.InputChange example_input] r) as (rw & Hrow & Ha).
    + constructor; [exact I | constructor].
    + exact Hr.
    + exists r, rw. split; [exact Hr |]. split; [exact Hrow | exact Ha].
Defined.

Lemma valid_count (i : nat) (lines : list jsstring) :
  length (filter (fun p => valid (snd p)) (indexed_from i lines))
  = length (filter valid lines).
Proof.
  revert i. unfold indexed_from.
  induction lines as [| l lines IH]; intros i; cbn [length seq combine filter snd];
    [reflexivity |].
  destruct (valid l); cbn [length]; now rewrite IH.
Qed.

Lemma parseTimeData_length (toStr : number -> jsstring) (input : jsstring) :
  length (parseTimeData toStr input)
  = length (filter valid (String_split LF input)).
Proof. now rewrite parseTimeData_filter, length_map, valid_count. Qed.

(** A spread call within the argument limit returns what the function gives;
    beyond the limit it throws. *)
Lemma spread_within (limit : nat) (f : list number -> number) (args : list number) :
  (length args <= limit)%nat -> App.spread limit f args = Normal (f args).
Proof.
  intros H. unfold App.spread.
  destruct (Nat.leb_spec (length args) limit); [reflexivity | lia].
Qed.

Lemma spread_beyond (limit : nat) (f : list number -> number) (args : list number) :
  (limit < length args)%nat -> App.spread limit f args = Throw.
Proof.
  intros H. unfold App.spread.
  destruct (Nat.leb_spec (length args) limit); [lia | reflexivity].
Qed.

(** X14: what is on screen follows the number [n] of valid lines of the text
    last entered, whatever the events before.  While [n] is within the
    argument limit of the engine, rendering does not throw: with no valid
    line only the placeholder is shown; with exactly one, the preview and
    the note asking for more data, but no results; with two or more, the
    preview, the results and the summary, but no note; and the count of
    detected values, shown when it is not 0, is [n].  With more valid lines
    than the argument limit, rendering throws: the preview spreads the
    values into [Math.min]. *)
Theorem App_render_panels (toStr : number -> jsstring) (limit : nat)
    (events : list App.event) :
  let n := length (filter valid (String_split LF (App.last_input events))) in
  ((n <= limit)%nat ->
   exists v,
     App.render limit (App.run toStr events) = Normal v
     /\ App.detected v = (if (n =? 0)%nat then None else Some n)
     /\ App.placeholder v = (n =? 0)%nat
     /\ App.preview v = (1 <=? n)%nat
     /\ App.note v = (n =? 1)%nat
     /\ App.results v = (2 <=? n)%nat
     /\ App.summary v = App.results v)
  /\ ((limit < n)%nat -> App.render limit (App.run toStr events) = Throw).
Proof.
  intros n.
  assert (Hlen : length (App.parsedTimes (App.run toStr events)) = n)
    by (rewrite App_parsed, App_rawInput; apply parseTimeData_length).
  unfold App.render. rewrite calculateCI_estimate. unfold Spec.estimate.
  rewrite Hlen. cbn [bind]. split.
  - intros Hn.
    rewrite !spread_within by (rewrite length_map; lia). cbn [bind].
    destruct n as [| [| n']]; cbn; eexists; (split; [reflexivity |]); cbn;
      auto 10.
  - intros Hn. rewrite spread_beyond by (rewrite length_map; lia).
    destruct n as [| n']; [lia |].
    destruct n' ; reflexivity.
Qed.

Lemma App_render_panels_witness :
  (exists v,
      App.render 2 (App.run (fun _ => []) [App.InputChange example_input])
      = Normal v
      /\ App.results v = true)
  /\ App.render 1 (App.run (fun _ => []) [App.InputChange example_input])
     = Throw.
Proof.
  assert (Hn : length (filter valid
                         (String_split LF
                            (App.last_input [App.InputChange example_input])))
               = 2%nat).
  { rewrite <- (parseTimeData_length (fun _ => [])).
    change (App.last_input [App.InputChange example_input]) with example_input.
    now rewrite parseTimeData_example. }
  split.
  - destruct (proj1 (App_render_panels (fun _ => []) 2
                       [App.InputChange example_input]))
      as (v & Hv & _ & _ & _ & _ & Hres & _).
    + rewrite Hn. lia.
    + exists v. split; [exact Hv |]. rewrite Hres, Hn. reflexivity.
  - apply (proj2 (App_render_panels (fun _ => []) 1
                    [App.InputChange example_input])).
    rewrite Hn. lia.
Defined.

(** ** The range shown in the preview *)

Ltac Rdecide :=
  unfold Rltb, Reqb in *;
  repeat match goal with
    | |- context [Rlt_dec ?a ?b] => destruct (Rlt_dec a b)
    | |- context [Req_dec_T ?a ?b] => destruct (Req_dec_T a b)
    | H : context [Rlt_dec ?a ?b] |- _ => destruct (Rlt_dec a b)
    | H : context [Req_dec_T ?a ?b] |- _ => destruct (Req_dec_T a b)
    end;
  cbn in *; try discriminate; try reflexivity; try lra.

Lemma num_le_refl (a : number) : isNaN a = false -> num_le a a.
Proof.
  unfold num_le, num_leb. destruct a as [| [] | x]; cbn; try discriminate; auto.
  intros _. Rdecide.
Qed.

Lemma num_le_trans (a b c : number) : num_le a b -> num_le b c -> num_le a c.
Proof.
  unfold num_le, num_leb.
  destruct a as [| [] | x], b as [| [] | y], c as [| [] | z]; cbn;
    try discriminate; auto; intros; Rdecide.
Qed.

Lemma num_ltb_le (a b : number) : num_ltb a b = true -> num_le a b.
Proof. unfold num_le, num_leb. intros ->. reflexivity. Qed.

Lemma num_ltb_false_le (a b : number) :
  isNaN a = false -> isNaN b = false -> num_ltb a b = false -> num_le b a.
Proof.
  unfold num_le, num_leb.
  destruct a as [| [] | x], b as [| [] | y]; cbn; try discriminate; auto;
    intros; Rdecide.
Qed.

Lemma num_le_pinf (v : number) : num_le (Inf false) v -> v = Inf false.
Proof.
  unfold num_le, num_leb. destruct v as [| [] | x]; cbn; try discriminate; auto.
Qed.

Lemma num_le_ninf (v : number) : num_le v (Inf true) -> v = Inf true.
Proof.
  unfold num_le, num_leb. destruct v as [| [] | x]; cbn; try discriminate; auto.
Qed.

Lemma fold_min (l : list number) (init : number) :
  isNaN init = false -> Forall (fun v => isNaN v = false) l ->
  let m := fold_left (fun lowest v => if num_ltb v lowest then v else lowest)
                     l init in
  isNaN m = false /\ (m = init \/ In m l) /\ num_le m init
  /\ Forall (num_le m) l.
Proof.
  intros Hi Hl. revert init Hi.
  induction Hl as [| v l Hv _ IH]; intros init Hi; cbn [fold_left].
  - repeat split; auto. now apply num_le_refl.
  - destruct (num_ltb v init) eqn:E.
    + destruct (IH v Hv) as (Hm & Hin & Hle & Hall).
      repeat split; auto.
      * right. destruct Hin as [-> | Hin]; [now left | now right].
      * apply num_le_trans with v; [exact Hle | now apply num_ltb_le].
    + destruct (IH init Hi) as (Hm & Hin & Hle & Hall).
      repeat split; auto.
      * destruct Hin as [-> | Hin]; [now left | right; now right].
      * constructor; [| exact Hall].
        apply num_le_trans with init; [exact Hle |].
        now apply num_ltb_false_le.
Qed.

Lemma fold_max (l : list number) (init : number) :
  isNaN init = false -> Forall (fun v => isNaN v = false) l ->
  let m := fold_left (fun highest v => if num_ltb highest v then v else highest)
                     l init in
  isNaN m = false /\ (m = init \/ In m l) /\ num_le init m
  /\ Forall (fun v => num_le v m) l.
Proof.
  intros Hi Hl. revert init Hi.
  induction Hl as [| v l Hv _ IH]; intros init Hi; cbn [fold_left].
  - repeat split; auto. now apply num_le_refl.
  - destruct (num_ltb init v) eqn:E.
    + destruct (IH v Hv) as (Hm & Hin & Hle & Hall).
      repeat split; auto.
      * right. destruct Hin as [-> | Hin]; [now left | now right].
      * apply num_le_trans with v; [now apply num_ltb_le | exact Hle].
    + destruct (IH init Hi) as (Hm & Hin & Hle & Hall).
      repeat split; auto.
      * destruct Hin as [-> | Hin]; [now left | right; now right].
      * constructor; [| exact Hall].
        apply num_le_trans with init; [| exact Hle].
        now apply num_ltb_false_le.
Qed.

(** [Math.min] and [Math.max] on arguments none of which is NaN. *)
Lemma Math_min_max (l : list number) :
  l <> [] -> Forall (fun v => isNaN v = false) l ->
  In (Math_min l) l /\ Forall (num_le (Math_min l)) l
  /\ In (Math_max l) l /\ Forall (fun v => num_le v (Math_max l)) l.
Proof.
  intros Hne Hl.
  assert (Hex : existsb isNaN l = false).
  { destruct (existsb isNaN l) eqn:E; [| reflexivity].
    apply existsb_exists in E as (v & Hin & Hv).
    rewrite Forall_forall in Hl. rewrite (Hl v Hin) in Hv. discriminate. }
  unfold Math_min, Math_max. rewrite Hex.
  destruct (@fold_min l (Inf false) eq_refl Hl) as (_ & Hin & _ & Hall).
  destruct (@fold_max l (Inf true) eq_refl Hl) as (_ & Hin' & _ & Hall').
  cbv zeta in *. repeat split; auto.
  - destruct Hin as [E | Hin]; [| exact Hin].
    rewrite E in *. destruct l as [| v l]; [contradiction |].
    apply Forall_inv in Hall. apply num_le_pinf in Hall. left. exact Hall.
  - destruct Hin' as [E | Hin']; [| exact Hin'].
    rewrite E in *. destruct l as [| v l]; [contradiction |].
    apply Forall_inv in Hall'. apply num_le_ninf in Hall'. left. exact Hall'.
Qed.

Lemma positive_not_NaN (v : number) :
  num_gtb v (Fin 0) = true -> isNaN v = false.
Proof. destruct v; cbn; try discriminate; auto. Qed.

(** X15: when the text last entered has a valid line, and no more valid
    lines than the argument limit of the engine, the preview shows a range
    whose two ends are values of the parsed sample, the lower one strictly
    positive and at most every value, the upper one at least every value;
    without a valid line no range is shown. *)
Theorem App_range (toStr : number -> jsstring) (limit : nat)
    (events : list App.event) :
  (length (App.parsedTimes (App.run toStr events)) <= limit)%nat ->
  exists v,
    App.render limit (App.run toStr events) = Normal v
    /\ match App.range v with
       | None => App.parsedTimes (App.run toStr events) = []
       | Some (lo, hi) =>
           let values := map raw (App.parsedTimes (App.run toStr events)) in
           In lo values /\ In hi values
           /\ num_gtb lo (Fin 0) = true
           /\ Forall (fun x => num_le lo x /\ num_le x hi) values
       end.
Proof.
  intros Hlimit.
  pose proof (App_parsed toStr events) as Hp.
  pose proof (parsed_positive toStr (App.rawInput (App.run toStr events))) as Hpos.
  rewrite <- Hp in Hpos.
  unfold App.render. rewrite calculateCI_estimate. cbn [bind].
  rewrite !spread_within by (now rewrite length_map).
  destruct (App.parsedTimes (App.run toStr events)) as [| o sample] eqn:E.
  - eexists. split; [reflexivity |]. reflexivity.
  - change (0 <? length (o :: sample))%nat with true. cbv iota. cbn [bind].
    eexists. split; [reflexivity |]. cbn [App.range]. cbv zeta.
    assert (Hv : Forall (fun v => num_gtb v (Fin 0) = true) (map raw (o :: sample)))
      by (apply Forall_map; exact Hpos).
    destruct (@Math_min_max (map raw (o :: sample))) as (Hlo & Hall & Hhi & Hall').
    + discriminate.
    + eapply Forall_impl; [| exact Hv]. apply positive_not_NaN.
    + repeat split; auto.
      * rewrite Forall_forall in Hv. now apply Hv.
      * apply Forall_forall. intros x Hx. rewrite Forall_forall in Hall, Hall'.
        split; [now apply Hall | now apply Hall'].
Qed.

Lemma App_range_witness :
  exists v lo hi,
    App.render 2 (App.run (fun _ => []) [App.InputChange example_input])
    = Normal v
    /\ App.range v = Some (lo, hi)
    /\ num_gtb lo (Fin 0) = true /\ num_le lo hi.
Proof.
  assert (Hp : App.parsedTimes
                 (App.run (fun _ => []) [App.InputChange example_input])
               = [entry_of (fun _ => []) 0 (js "122");
                  entry_of (fun _ => []) 4 (js "50.5")])
    by apply parseTimeData_example.
  destruct (@App_range (fun _ => []) 2 [App.InputChange example_input])
    as (v & Hv & Hr).
  - rewrite Hp. simpl. lia.
  - destruct (App.range v) as [[lo hi] |] eqn:E.
    + exists v, lo, hi. split; [exact Hv |]. split; [exact E |].
      destruct Hr as (_ & Hhi & Hpos & Hall). split; [exact Hpos |].
      rewrite Forall_forall in Hall. now apply (Hall hi).
    + rewrite Hp in Hr. discriminate Hr.
Defined.
